(** * ats-research: the orchestration core, embedded and verified

    A shallow embedding of the control code of the resume / cover letter
    tailoring system:

    - [decisions/decision_logic.py]       (module [Decision])
    - [agents/writing/document_evaluator.py] (module [Evaluator])
    - [agents/agent_pool.py]              (modules [Pool], [Cancellation])
    - [state/state_manager.py]            (modules [State], [Artifacts])
    - [agents/writing/version_manager.py] (module [Version])
    - [merger/validators.py], [merger/merger_engine.py],
      [merger/prompts.py]                 (module [Merger])
    - [agents/base_agent.py]              (module [Agent])
    - [orchestrators/base_orchestra.py]   (module [Orchestra])
    - [orchestrators/writing_polishing_orchestra.py]    (module [Polishing])
    - [orchestrators/fact_checking_loop_orchestra.py]   (module [FactChecking])

    Conventions.  Python [int] is [Z].  A [float] that is only compared
    or handed on is the rational it denotes ([Q]); where a result would
    depend on binary64 rounding, either nothing is stated or the sum is
    evaluated on primitive floats as well.  A [dict] with string keys is
    a [gmap string _].  Code that can raise returns a sum whose left side
    is the exception.  A call that the code makes with keywords is bound
    to the parameters of the callee as Python binds it.  Logging is not
    modelled. *)

From Stdlib Require Import ZArith QArith List String Ascii Sorting Permutation Lia Lqa Floats.
From stdpp Require Import gmap strings list sorting pretty.

Local Open Scope string_scope.
Local Open Scope Z_scope.

(** ** Python values and built-ins *)

(** The values a JSON-like [Dict[str, Any]] holds. *)
Inductive any : Type :=
| AnyNone
| AnyBool (b : bool)
| AnyInt (z : Z)
| AnyFloat (q : Q)
| AnyStr (s : string).

Abbreviation dict := (gmap string any).

(** Exceptions, by class. *)
Inductive exn : Type :=
| ValueError (msg : string)
| KeyError (msg : string)
| RuntimeError (msg : string)
| FileNotFoundError (msg : string)
| UnboundLocalError (msg : string)
| TypeError (msg : string)
| AttributeError (msg : string).

(** How a pass through the body of a [while] ends: at the bottom or on
    [continue], on [break], or with an exception. *)
Inductive control (S : Type) : Type :=
| Continue (s : S)
| Break (s : S)
| Raise (e : exn).
Arguments Continue {S} s.
Arguments Break {S} s.
Arguments Raise {S} e.

(** [a < b] and [a <= b] on floats. *)
Definition Qltb (a b : Q) : bool := negb (Qle_bool b a).
Definition Qleb (a b : Q) : bool := Qle_bool a b.

(** [max(a, b)]: the first argument unless the second is strictly larger. *)
Definition py_max (a b : Q) : Q := if Qltb a b then b else a.

(** [min(a, b)]: the first argument unless the second is strictly smaller. *)
Definition py_min (a b : Q) : Q := if Qltb b a then b else a.

(** [l[:n]] for any integer [n]: a negative bound counts from the end. *)
Definition py_slice_to {A : Type} (l : list A) (n : Z) : list A :=
  if 0 <=? n then List.firstn (Z.to_nat n) l
  else List.firstn (Z.to_nat (Z.of_nat (List.length l) + n)) l.

(** [sorted(l, key=key, reverse=reverse)], for keys compared with [ltb].
    Python's sort is stable, with or without [reverse], and a stable sort
    has a single possible result, so straight insertion stands for it:
    elements are inserted starting from the back of the input, and an
    element passes only those that come strictly before it, so it stays
    in front of the later elements it ties with. *)
Section Sorted.
Context {A K : Type}.
Variable ltb : K -> K -> bool.
Variable key : A -> K.

Definition before (reverse : bool) (a b : K) : bool :=
  if reverse then ltb b a else ltb a b.

Fixpoint insert_sorted (reverse : bool) (x : A) (l : list A) : list A :=
  match l with
  | [] => [x]
  | y :: l' =>
      if before reverse (key y) (key x) then y :: insert_sorted reverse x l'
      else x :: y :: l'
  end.

Definition sorted (reverse : bool) (l : list A) : list A :=
  List.fold_right (insert_sorted reverse) [] l.
End Sorted.

(** ** decisions/decision_logic.py *)

Module Decision.

Record DocumentEvaluation : Type := mkDocumentEvaluation {
  ev_score : Q;
  ev_has_critical_issues : bool;
  ev_has_false_facts : bool;
  ev_issue_count : Z;
  ev_quality_notes : string;
  ev_metadata : dict
}.

Record MatchResult : Type := mkMatchResult {
  jd_id : string;
  match_score : Q;
  relevance_score : Q;
  matched_keywords : list string;
  missing_skills : list string;
  recommendation : string
}.

Definition has_critical_issues (evaluation : DocumentEvaluation) : bool :=
  ev_has_critical_issues evaluation.



Definition has_false_facts (evaluation : DocumentEvaluation) : bool :=
  ev_has_false_facts evaluation.

Definition should_rank_jds (jd_count : Z) : bool := 1 <? jd_count.

Definition select_top_jds (matches : list MatchResult) (top_n : Z) : list string :=
  let sorted_matches := sorted Qltb match_score true matches in
  List.map jd_id (py_slice_to sorted_matches top_n).

(** [abs(actual_length - target_length) / target_length] is the true
    division of two integers. *)
Definition calculate_length_score (actual_length target_length : Z) : Q :=
  if target_length =? 0 then 0%Q
  else py_max 0%Q (1 - inject_Z (Z.abs (actual_length - target_length))
                       / inject_Z target_length)%Q.

Definition should_continue_iteration
    (current_iteration max_iterations : Z) (current_score threshold : Q)
    : bool * string :=
  if max_iterations <=? current_iteration then (false, "max_iterations_reached")
  else if Qleb threshold current_score then (false, "quality_threshold_met")
  else (true, "needs_improvement").

Definition evaluate_change_impact
    (change_type : string) (impact_score quality_delta : Q) : bool :=
  let condition_1 := Qltb impact_score (3 # 10) && Qleb 0 quality_delta in
  let condition_2 := Qltb (1 # 10) quality_delta in
  condition_1 || condition_2.

End Decision.

(** ** agents/writing/document_evaluator.py *)

Module Evaluator.
Import Decision.

(** What a result dict may hold under ["score"]: a number (an [int] or
    a finite [float], given by the rational it denotes), an infinity,
    [nan], or an object that a [float] is not ordered with ([None], a
    [str], a [dict]). *)
Inductive score_value : Type :=
| Number (q : Q)
| Infinity (negative : bool)
| NaN
| Unordered.

(** A result dictionary as the evaluation task returns it: every key may
    be missing. *)
Record EvalDict : Type := mkEvalDict {
  d_score : option score_value;
  d_has_critical_issues : option bool;
  d_has_false_facts : option bool;
  d_issue_count : option Z;
  d_quality_notes : option string;
  d_metadata : option dict
}.

(** What [format_output] can be handed: the task instruction built by
    [execute] (a dict whose ["instruction"] is ["CALL_TASK_TOOL"]), a
    result dict, or anything else (given by its [str]). *)
Inductive raw_output : Type :=
| RawTaskInstruction (instruction : dict)
| RawDict (d : EvalDict)
| RawOther (repr : string).

Inductive formatted : Type :=
| PassThrough (instruction : dict)
| Evaluation (e : DocumentEvaluation).

Definition get {A : Type} (o : option A) (default : A) : A :=
  match o with Some a => a | None => default end.

(** [if not (0.0 <= score <= 1.0): score = max(0.0, min(1.0, score))].
    A comparison with [nan] is false, so [nan] fails the test, [min]
    keeps its first argument, [1.0], and so does [max] after it.
    [0.0 <= score] raises for an object without an order. *)
Definition clamp (score : score_value) : exn + Q :=
  match score with
  | Number q =>
      inr (if negb (Qleb 0 q && Qleb q 1) then py_max 0%Q (py_min 1%Q q) else q)
  | Infinity negative => inr (if negative then 0%Q else 1%Q)
  | NaN => inr 1%Q
  | Unordered =>
      inl (TypeError "'<=' not supported between instances of 'float' and the score")
  end.

Definition format_output (raw : raw_output) : exn + formatted :=
  match raw with
  | RawTaskInstruction instruction => inr (PassThrough instruction)
  | RawDict d =>
      match clamp (get (d_score d) (Number 0%Q)) with
      | inl e => inl e
      | inr score =>
          inr (Evaluation
                 {| ev_score := score;
                    ev_has_critical_issues := get (d_has_critical_issues d) false;
                    ev_has_false_facts := get (d_has_false_facts d) false;
                    ev_issue_count := get (d_issue_count d) 0;
                    ev_quality_notes := get (d_quality_notes d) EmptyString;
                    ev_metadata := get (d_metadata d) ∅ |})
      end
  | RawOther repr =>
      (* the fallback for an output that is not a dict *)
      match clamp (Number 0%Q) with
      | inl e => inl e
      | inr score =>
          inr (Evaluation
                 {| ev_score := score;
                    ev_has_critical_issues := true;
                    ev_has_false_facts := false;
                    ev_issue_count := 1;
                    ev_quality_notes := "Evaluation failed - unexpected output format";
                    ev_metadata := {[ "error" := AnyStr repr ]} |})
      end
  end.

End Evaluator.

(** ** agents/agent_pool.py *)

Module Pool.

Section Agents.
Context {Input Output : Type}.

(** What [await agent.run(input_data)] does: return an output or raise. *)
Inductive outcome : Type :=
| Returns (o : Output)
| Raises (e : exn).

Record BaseAgent : Type := { run : Input -> outcome }.

(** An entry of the result list: the agent's output, or the exception
    object when the agent failed. *)
Inductive result : Type :=
| Value (o : Output)
| Failed (e : exn).

Record AgentPool : Type := { _pool_size : option Z }.

(** [AgentPool(pool_size)] *)
Definition AgentPool_init (pool_size : option Z) : exn + AgentPool :=
  match pool_size with
  | Some n =>
      if n <? 1 then inl (ValueError "pool_size must be >= 1 or None")
      else inr {| _pool_size := Some n |}
  | None => inr {| _pool_size := None |}
  end.

(** The body of [_execute_one] once it holds a slot: the [try] around
    [agent.run] turns an exception into a value. *)
Definition _execute_one (agent : BaseAgent) (input_data : Input) (index : nat)
    : nat * result :=
  match run agent input_data with
  | Returns o => (index, Value o)
  | Raises e => (index, Failed e)
  end.

(** *** The event loop

    The coroutines handed to one [gather], each with its position among
    the arguments.  A coroutine waits until the semaphore has a free slot
    (always, without a semaphore), then runs; which running coroutine
    finishes next is not up to the pool: the [schedule] says it, one choice
    per completion. *)
Record task : Type := { t_index : nat; t_agent : BaseAgent; t_input : Input }.

Record loop_state : Type := {
  waiting : list (nat * task);
  running : list (nat * task);
  finished : list (nat * (nat * result))
}.

Definition has_slot (pool : AgentPool) (running : list (nat * task)) : bool :=
  match _pool_size pool with
  | None => true
  | Some n => Z.of_nat (List.length running) <? n
  end.

(** [async with self._semaphore]: waiting coroutines enter in order
    while a slot is free. *)
Fixpoint acquire (pool : AgentPool) (waiting running : list (nat * task))
    : list (nat * task) * list (nat * task) :=
  match waiting with
  | [] => ([], running)
  | t :: waiting' =>
      if has_slot pool running then acquire pool waiting' (running ++ [t])
      else (waiting, running)
  end.

(** What the coroutine returns. *)
Definition finish (t : task) : nat * result :=
  _execute_one (t_agent t) (t_input t) (t_index t).

(** One completion: the [choice]-th running coroutine (counted modulo
    the number running) returns its pair and frees its slot. *)
Definition complete (choice : nat) (st : loop_state) : loop_state :=
  let i := (choice mod List.length (running st))%nat in
  match running st !! i with
  | Some (position, t) =>
      {| waiting := waiting st;
         running := delete i (running st);
         finished := finished st ++ [(position, finish t)] |}
  | None => st
  end.

Fixpoint event_loop (pool : AgentPool) (schedule : list nat) (fuel : nat)
    (st : loop_state) : loop_state :=
  match fuel with
  | 0%nat => st
  | S fuel' =>
      let (w, r) := acquire pool (waiting st) (running st) in
      let st' := {| waiting := w; running := r; finished := finished st |} in
      event_loop pool (List.tl schedule) fuel'
                 (complete (List.hd 0%nat schedule) st')
  end.

(** [enumerate(zip(agents, inputs))] *)
Fixpoint enumerate_zip (index : nat) (agents : list BaseAgent) (inputs : list Input)
    : list task :=
  match agents, inputs with
  | agent :: agents', input_data :: inputs' =>
      {| t_index := index; t_agent := agent; t_input := input_data |}
        :: enumerate_zip (S index) agents' inputs'
  | _, _ => []
  end.

(** The returned pairs in the order the coroutines finished, each with
    the position of its coroutine. *)
Definition completion_log (pool : AgentPool) (schedule : list nat) (tasks : list task)
    : list (nat * (nat * result)) :=
  finished (event_loop pool schedule (List.length tasks)
              {| waiting := zip (List.seq 0 (List.length tasks)) tasks;
                 running := []; finished := [] |}).

(** [await asyncio.gather( *tasks )]: once all have finished, what each
    coroutine returned, in the order of the arguments. *)
Definition gather (pool : AgentPool) (schedule : list nat) (tasks : list task)
    : list (nat * result) :=
  let log := completion_log pool schedule tasks in
  omap (fun position =>
          snd <$> List.find (fun child => (fst child =? position)%nat) log)
       (List.seq 0 (List.length tasks)).

Definition execute_agents (pool : AgentPool) (schedule : list nat)
    (agents : list BaseAgent) (inputs : list Input) : exn + list result :=
  if negb (List.length agents =? List.length inputs)%nat then
    inl (ValueError "agents and inputs must have same length")
  else
    match agents with
    | [] => inr []
    | _ =>
        let tasks := enumerate_zip 0 agents inputs in
        let index_results := gather pool schedule tasks in
        let sorted_results := sorted Nat.ltb fst false index_results in
        inr (List.map snd sorted_results)
    end.

End Agents.

Arguments outcome : clear implicits.
Arguments result : clear implicits.
Arguments BaseAgent : clear implicits.
Arguments task : clear implicits.
Arguments loop_state : clear implicits.

End Pool.

(** ** agents/agent_pool.py, with what [except Exception] lets through

    [Pool] takes agents whose [run] returns or raises an [Exception].
    An agent may also end with an exception that only [BaseException]
    covers: [asyncio.CancelledError], [KeyboardInterrupt], [SystemExit].
    [except Exception] in [_execute_one] does not catch it, and [gather]
    without [return_exceptions] hands the first one on.  This module is
    the pool for such agents; the pool object and the entries of the
    result list are those of [Pool]. *)

Module Cancellation.

Inductive base_exception : Type :=
| CancelledError
| KeyboardInterrupt
| SystemExit.

(** What a call of the pool raises: an [Exception] or one of the others. *)
Inductive raised : Type :=
| Exc (e : exn)
| Base (b : base_exception).

Section Agents.
Context {Input Output : Type}.

(** What [await agent.run(input_data)] does. *)
Inductive outcome : Type :=
| Returns (o : Output)
| Raises (e : exn)
| Escapes (b : base_exception).

Record BaseAgent : Type := { run : Input -> outcome }.

(** How the coroutine [_execute_one] ends once it holds a slot: it
    returns the pair, with the exception as the value when [except
    Exception] caught one, or the exception of [agent.run] goes through
    it. *)
Definition _execute_one (agent : BaseAgent) (input_data : Input) (index : nat)
    : base_exception + nat * Pool.result Output :=
  match run agent input_data with
  | Returns o => inr (index, Pool.Value o)
  | Raises e => inr (index, Pool.Failed e)
  | Escapes b => inl b
  end.

(** *** The event loop

    As in [Pool]: a coroutine waits for a slot, runs, and ends when the
    [schedule] picks it.  [async with] frees the slot also when the
    coroutine ends with an exception. *)
Record task : Type := { t_index : nat; t_agent : BaseAgent; t_input : Input }.

Record loop_state : Type := {
  waiting : list (nat * task);
  running : list (nat * task);
  finished : list (nat * (base_exception + nat * Pool.result Output))
}.

Definition has_slot (pool : Pool.AgentPool) (running : list (nat * task)) : bool :=
  match Pool._pool_size pool with
  | None => true
  | Some n => Z.of_nat (List.length running) <? n
  end.

Fixpoint acquire (pool : Pool.AgentPool) (waiting running : list (nat * task))
    : list (nat * task) * list (nat * task) :=
  match waiting with
  | [] => ([], running)
  | t :: waiting' =>
      if has_slot pool running then acquire pool waiting' (running ++ [t])
      else (waiting, running)
  end.

Definition finish (t : task) : base_exception + nat * Pool.result Output :=
  _execute_one (t_agent t) (t_input t) (t_index t).

Definition complete (choice : nat) (st : loop_state) : loop_state :=
  let i := (choice mod List.length (running st))%nat in
  match running st !! i with
  | Some (position, t) =>
      {| waiting := waiting st;
         running := delete i (running st);
         finished := finished st ++ [(position, finish t)] |}
  | None => st
  end.

Fixpoint event_loop (pool : Pool.AgentPool) (schedule : list nat) (fuel : nat)
    (st : loop_state) : loop_state :=
  match fuel with
  | 0%nat => st
  | S fuel' =>
      let (w, r) := acquire pool (waiting st) (running st) in
      let st' := {| waiting := w; running := r; finished := finished st |} in
      event_loop pool (List.tl schedule) fuel'
                 (complete (List.hd 0%nat schedule) st')
  end.

(** [enumerate(zip(agents, inputs))] *)
Fixpoint enumerate_zip (index : nat) (agents : list BaseAgent) (inputs : list Input)
    : list task :=
  match agents, inputs with
  | agent :: agents', input_data :: inputs' =>
      {| t_index := index; t_agent := agent; t_input := input_data |}
        :: enumerate_zip (S index) agents' inputs'
  | _, _ => []
  end.

(** How the coroutines ended, in the order in which they ended, each
    with the position of its coroutine. *)
Definition completion_log (pool : Pool.AgentPool) (schedule : list nat)
    (tasks : list task) : list (nat * (base_exception + nat * Pool.result Output)) :=
  finished (event_loop pool schedule (List.length tasks)
              {| waiting := zip (List.seq 0 (List.length tasks)) tasks;
                 running := []; finished := [] |}).

(** The exception of the first coroutine that ended with one. *)
Fixpoint first_exception
    (log : list (nat * (base_exception + nat * Pool.result Output)))
    : option base_exception :=
  match log with
  | [] => None
  | (_, inl b) :: _ => Some b
  | (_, inr _) :: log' => first_exception log'
  end.

(** [await asyncio.gather( *tasks, return_exceptions=False)]: the first
    exception that a coroutine ends with is raised to the caller; when
    all have returned, what each returned, in the order of the
    arguments. *)
Definition gather (pool : Pool.AgentPool) (schedule : list nat) (tasks : list task)
    : base_exception + list (nat * Pool.result Output) :=
  let log := completion_log pool schedule tasks in
  match first_exception log with
  | Some b => inl b
  | None =>
      inr (omap (fun position =>
                   match List.find (fun child => (fst child =? position)%nat) log with
                   | Some (_, inr index_result) => Some index_result
                   | _ => None
                   end)
                (List.seq 0 (List.length tasks)))
  end.

Definition execute_agents (pool : Pool.AgentPool) (schedule : list nat)
    (agents : list BaseAgent) (inputs : list Input)
    : raised + list (Pool.result Output) :=
  if negb (List.length agents =? List.length inputs)%nat then
    inl (Exc (ValueError "agents and inputs must have same length"))
  else
    match agents with
    | [] => inr []
    | _ =>
        let tasks := enumerate_zip 0 agents inputs in
        match gather pool schedule tasks with
        | inl b => inl (Base b)
        | inr index_results =>
            let sorted_results := sorted Nat.ltb fst false index_results in
            inr (List.map snd sorted_results)
        end
    end.

(** [[agent_factory(input_data) for input_data in inputs]]: the factory is
    the caller's, and the first call that raises ends the comprehension. *)
Fixpoint create_agents (agent_factory : Input -> raised + BaseAgent)
    (inputs : list Input) : raised + list BaseAgent :=
  match inputs with
  | [] => inr []
  | input_data :: inputs' =>
      match agent_factory input_data with
      | inl e => inl e
      | inr agent =>
          match create_agents agent_factory inputs' with
          | inl e => inl e
          | inr agents => inr (agent :: agents)
          end
      end
  end.

Definition execute_batches (pool : Pool.AgentPool) (schedule : list nat)
    (agent_factory : Input -> raised + BaseAgent) (inputs : list Input)
    : raised + list (Pool.result Output) :=
  match create_agents agent_factory inputs with
  | inl e => inl e
  | inr agents => execute_agents pool schedule agents inputs
  end.

End Agents.

Arguments outcome : clear implicits.
Arguments BaseAgent : clear implicits.
Arguments task : clear implicits.
Arguments loop_state : clear implicits.

End Cancellation.

(** ** state/state_manager.py *)

Module State.

(** [datetime.utcnow()], to the second.  Every operation that reads the
    clock takes the reading as an argument. *)
Record datetime : Type := {
  year : nat; month : nat; day : nat;
  hour : nat; minute : nat; second : nat
}.

Definition digit (n : nat) : ascii := ascii_of_nat (48 + n mod 10).

Definition pad2 (n : nat) : string :=
  String (digit (n / 10)) (String (digit n) EmptyString).

Definition pad4 (n : nat) : string :=
  String (digit (n / 1000)) (String (digit (n / 100)) (pad2 n)).

(** [now.strftime("%Y%m%d_%H%M%S")] *)
Definition strftime (now : datetime) : string :=
  pad4 (year now) +:+ pad2 (month now) +:+ pad2 (day now) +:+ "_"
    +:+ pad2 (hour now) +:+ pad2 (minute now) +:+ pad2 (second now).

(** [now.isoformat() + "Z"] *)
Definition isoformat_Z (now : datetime) : string :=
  pad4 (year now) +:+ "-" +:+ pad2 (month now) +:+ "-" +:+ pad2 (day now)
    +:+ "T" +:+ pad2 (hour now) +:+ ":" +:+ pad2 (minute now) +:+ ":"
    +:+ pad2 (second now) +:+ "Z".

(** Seconds on a common scale (months of 31 days: an order-preserving
    scale, not the calendar), to compare two readings. *)
Definition instant (t : datetime) : Z :=
  let z := Z.of_nat in
  ((((z (year t) * 12 + z (month t)) * 31 + z (day t)) * 24 + z (hour t)) * 60
   + z (minute t)) * 60 + z (second t).

(** The JSON document of a version file [v{n}.json]. *)
Record version_data : Type := {
  version : Z;
  content : string;
  metadata : dict;
  timestamp : string
}.

(** The run directory: [artifacts/versions/{document_id}/v{n}.json] and
    [checkpoints/{name}.json], each file given by the JSON document it
    holds. *)
Record StateManager : Type := {
  versions : gmap string (gmap Z version_data);
  checkpoints : gmap string dict
}.

Definition empty_run : StateManager := {| versions := ∅; checkpoints := ∅ |}.

Definition save_version (sm : StateManager) (document_id : string)
    (version_num : Z) (content : string) (metadata : dict) (now : datetime)
    : StateManager :=
  let version_dir := default ∅ (versions sm !! document_id) in
  let data := {| version := version_num; content := content;
                 metadata := metadata; timestamp := isoformat_Z now |} in
  {| versions := <[document_id := <[version_num := data]> version_dir]> (versions sm);
     checkpoints := checkpoints sm |}.

Definition load_version (sm : StateManager) (document_id : string)
    (version_num : Z) : exn + version_data :=
  match versions sm !! document_id ≫= (λ dir, dir !! version_num) with
  | Some data => inr data
  | None => inl (FileNotFoundError "Version of document not found")
  end.

(** [max(version_numbers)], [None] for an empty list. *)
Definition max_of (numbers : list Z) : option Z :=
  List.fold_right
    (λ n acc, Some (match acc with Some m => Z.max n m | None => n end))
    None numbers.

Definition get_latest_version (sm : StateManager) (document_id : string)
    : exn + (Z * version_data) :=
  match versions sm !! document_id with
  | None => inl (FileNotFoundError "No versions found for document")
  | Some version_dir =>
      let version_numbers := List.map fst (map_to_list version_dir) in
      match max_of version_numbers with
      | None => inl (FileNotFoundError "No versions found for document")
      | Some latest_num =>
          match load_version sm document_id latest_num with
          | inl e => inl e
          | inr latest_data => inr (latest_num, latest_data)
          end
      end
  end.

(** Returns the name of the checkpoint file and the new state.  The two
    keys written last win over the same keys of the payload. *)
Definition save_checkpoint (sm : StateManager) (stage : string)
    (state_data : dict) (now : datetime) : string * StateManager :=
  let timestamp := strftime now in
  let checkpoint_name := stage +:+ "_" +:+ timestamp +:+ ".json" in
  let checkpoint_data :=
    <["checkpoint_timestamp" := AnyStr (isoformat_Z now)]>
      (<["stage" := AnyStr stage]> state_data) in
  (checkpoint_name,
   {| versions := versions sm;
      checkpoints := <[checkpoint_name := checkpoint_data]> (checkpoints sm) |}).

(** [sorted(self.checkpoints_dir.glob("*.json"), reverse=True)]: paths of
    one directory compare as their names do. *)
Definition list_checkpoints (sm : StateManager) : list string :=
  let checkpoint_files := List.map fst (map_to_list (checkpoints sm)) in
  sorted String.ltb id true checkpoint_files.

Definition load_latest_checkpoint (sm : StateManager) : option (string * dict) :=
  match list_checkpoints sm with
  | [] => None
  | latest_checkpoint :: _ =>
      match checkpoints sm !! latest_checkpoint with
      | Some checkpoint_data =>
          (* checkpoint_data.get("stage", "unknown"); every checkpoint
             written by save_checkpoint holds a string there *)
          let stage_name :=
            match checkpoint_data !! "stage" with
            | Some (AnyStr s) => s
            | _ => "unknown"
            end in
          Some (stage_name, checkpoint_data)
      | None => None
      end
  end.

End State.

(** ** agents/writing/version_manager.py *)

Module Version.
Import State.

(** The input dict: every key may be missing. *)
Record input : Type := {
  action : option string;
  document_id : option string;
  content : option string;
  version_num : option Z;
  metadata : option dict
}.

Record output : Type := {
  out_version_num : Z;
  out_content : string;
  out_metadata : dict;
  out_timestamp : option string
}.

(** [c.isspace()] for a character below 256: the ASCII white space, the
    separators 28 to 31, NEL and the no-break space. *)
Definition isspace (c : ascii) : bool :=
  let n := nat_of_ascii c in
  ((9 <=? n) && (n <=? 13) || (28 <=? n) && (n <=? 32)
   || (n =? 133) || (n =? 160))%nat.

Fixpoint lstrip (s : string) : string :=
  match s with
  | String c s' => if isspace c then lstrip s' else s
  | EmptyString => EmptyString
  end.

Fixpoint rstrip (s : string) : string :=
  match s with
  | String c s' =>
      let stripped := rstrip s' in
      if isspace c && String.eqb stripped EmptyString then EmptyString
      else String c stripped
  | EmptyString => EmptyString
  end.

(** [s.strip()] *)
Definition strip (s : string) : string := rstrip (lstrip s).

(** [validate_input]: the keys are read with [.get]; the values that are
    present have the types of the record. *)
Definition validate_input (input_data : input) : bool :=
  let action := default EmptyString (action input_data) in
  if negb (String.eqb action "store" || String.eqb action "restore") then false
  else
    let document_id := default EmptyString (document_id input_data) in
    if String.eqb (strip document_id) EmptyString then false
    else if String.eqb action "store" then
      let content := default EmptyString (content input_data) in
      if (String.length (strip content) <? 10)%nat then false else true
    else
      match version_num input_data with
      | None => false
      | Some version_num => if version_num <? 1 then false else true
      end.

(** [execute]: subscripting a missing key raises [KeyError]. *)
Definition execute (sm : StateManager) (input_data : input) (now : datetime)
    : exn + (output * StateManager) :=
  match action input_data, document_id input_data with
  | None, _ => inl (KeyError "action")
  | _, None => inl (KeyError "document_id")
  | Some action, Some document_id =>
      if String.eqb action "store" then
        match content input_data with
        | None => inl (KeyError "content")
        | Some content =>
            let metadata := default ∅ (metadata input_data) in
            let next_version :=
              match get_latest_version sm document_id with
              | inr (latest_num, _) => latest_num + 1
              | inl _ => 1
              end in
            let sm' := save_version sm document_id next_version content metadata now in
            inr ({| out_version_num := next_version; out_content := content;
                    out_metadata := metadata; out_timestamp := None |}, sm')
        end
      else
        match version_num input_data with
        | None => inl (KeyError "version_num")
        | Some version_num =>
            match load_version sm document_id version_num with
            | inl e => inl e
            | inr version_data =>
                inr ({| out_version_num := version version_data;
                        out_content := State.content version_data;
                        out_metadata := State.metadata version_data;
                        out_timestamp := Some (timestamp version_data) |}, sm)
            end
        end
  end.

(** A [store] request. *)
Definition store_input (document_id content : string) (metadata : dict) : input :=
  {| action := Some "store"; document_id := Some document_id;
     content := Some content; version_num := None; metadata := Some metadata |}.

(** Consecutive [store] calls for one document: the version numbers
    they return, in call order, and the final state. *)
Fixpoint store_all (sm : StateManager) (document_id : string)
    (calls : list (string * dict * datetime)) : list Z * StateManager :=
  match calls with
  | [] => ([], sm)
  | (content, metadata, now) :: calls' =>
      match execute sm (store_input document_id content metadata) now with
      | inr (out, sm') =>
          let (numbers, sm'') := store_all sm' document_id calls' in
          (out_version_num out :: numbers, sm'')
      | inl _ => ([], sm)
      end
  end.

End Version.

(** ** merger/validators.py and merger/merger_engine.py *)

Module Merger.

Record ValidationResult : Type := {
  passed : bool;
  score : Q;
  details : string;
  issues : list string;
  coverage : Q
}.

Definition default_weights : gmap string Q :=
  list_to_map [("r1_principles", 0.30%Q); ("r2_examples", 0.25%Q);
               ("section_completeness", 0.25%Q); ("actionability", 0.20%Q)].

(** [validation_results] is a dict walked in insertion order: the list of
    its items. *)
Definition calculate_confidence_score
    (validation_results : list (string * ValidationResult))
    (weights : option (gmap string Q)) : Q :=
  match validation_results with
  | [] => 0%Q
  | _ =>
      let weights := default default_weights weights in
      let equal_share := (1 / inject_Z (Z.of_nat (List.length validation_results)))%Q in
      let '(total_score, total_weight) :=
        List.fold_left
          (λ '(total_score, total_weight) '(name, result),
             let weight := default equal_share (weights !! name) in
             ((total_score + score result * weight)%Q, (total_weight + weight)%Q))
          validation_results (0%Q, 0%Q) in
      if Qltb 0 total_weight then (total_score / total_weight)%Q else 0%Q
  end.

(** [name.upper()] on ASCII letters. *)
Definition upper_ascii (c : ascii) : ascii :=
  let n := nat_of_ascii c in
  if ((97 <=? n) && (n <=? 122))%nat then ascii_of_nat (n - 32) else c.

Fixpoint upper (s : string) : string :=
  match s with
  | String c s' => String (upper_ascii c) (upper s')
  | EmptyString => EmptyString
  end.

Definition _extract_validation_issues
    (validation_results : list (string * ValidationResult)) : list string :=
  List.flat_map
    (λ '(name, result),
       if passed result then []
       else ("[" +:+ upper name +:+ "] " +:+ details result)
              :: List.map (λ issue, "  " +:+ issue) (issues result))
    validation_results.

(** [_run_validators]: the four validators, under their names.  The
    sources are fixed during a merge, so each validator is given as a
    function of the guidelines. *)
Definition _run_validators
    (validate_r1_principles validate_r2_examples
     validate_section_completeness validate_actionability
       : string -> ValidationResult)
    (merged_guidelines : string) : list (string * ValidationResult) :=
  [("r1_principles", validate_r1_principles merged_guidelines);
   ("r2_examples", validate_r2_examples merged_guidelines);
   ("section_completeness", validate_section_completeness merged_guidelines);
   ("actionability", validate_actionability merged_guidelines)].

(** [prompts.build_metadata_header].  It reads each of the four scores
    with [validation_summary.get(name, {}).get('score', 0)], which takes
    the values of the summary to be dicts.  [merge] passes
    [final_validation], whose values are [ValidationResult] objects: they
    have no [get], and the first of the four names that the summary has
    ends the call.  [header] is the text for a summary with none of them. *)
Definition build_metadata_header (header : string)
    (validation_summary : list (string * ValidationResult)) : exn + string :=
  if List.existsb
       (λ name, List.existsb (λ item, String.eqb (fst item) name) validation_summary)
       ["r1_principles"; "r2_examples"; "section_completeness"; "actionability"]
  then inl (AttributeError "'ValidationResult' object has no attribute 'get'")
  else inr header.

Record MergerEngine : Type := {
  max_iterations : Z;
  quality_threshold : Q
}.

Record merge_state : Type := {
  iteration : Z;
  current_guidelines : string
}.

Record MergeResult : Type := {
  merged_guidelines : string;
  confidence_score : Q;
  validation_results : list (string * ValidationResult);
  iterations_performed : Z
}.

(** [MergerEngine.merge].  The four validators are pure functions of the
    two sources and the guidelines; the sources are fixed during a merge,
    so [run_validators] takes the guidelines only.  The refinement is the
    call to the model: it returns the refined guidelines or raises.  The
    lists of takeaways and patterns that ride along with the guidelines
    are not modelled. *)
Section Engine.
Variable run_validators : string -> list (string * ValidationResult).
Variable execute_refinement : string -> list string -> exn + string.
Variable engine : MergerEngine.

Definition merge_body (st : merge_state) : control merge_state :=
  let iteration := iteration st + 1 in
  let validation_results := run_validators (current_guidelines st) in
  let confidence := calculate_confidence_score validation_results None in
  if Qleb (quality_threshold engine) confidence then
    Break {| iteration := iteration; current_guidelines := current_guidelines st |}
  else if max_iterations engine <=? iteration then
    Break {| iteration := iteration; current_guidelines := current_guidelines st |}
  else
    let issues := _extract_validation_issues validation_results in
    match execute_refinement (current_guidelines st) issues with
    | inl e => Raise e
    | inr refined =>
        Continue {| iteration := iteration; current_guidelines := refined |}
    end.

(** [while iteration < self.max_iterations]; [fuel] bounds the number
    of passes. *)
Fixpoint merge_loop (fuel : nat) (st : merge_state) : exn + merge_state :=
  match fuel with
  | 0%nat => inr st
  | S fuel' =>
      if iteration st <? max_iterations engine then
        match merge_body st with
        | Continue st' => merge_loop fuel' st'
        | Break st' => inr st'
        | Raise e => inl e
        end
      else inr st
  end.

(** The initial merge is the first call to the model, followed by
    [merge_data["merged_guidelines"]]: the guidelines, or what either
    raised.  [header] is the text of the metadata header for a given
    confidence. *)
Variable _execute_initial_merge : string -> string -> string -> exn + string.
Variable header : Q -> string.

Definition merge (r1_content r2_content document_type : string)
    : exn + MergeResult :=
  if String.eqb r1_content EmptyString || String.eqb r2_content EmptyString then
    inl (ValueError "Both R1 and R2 content required")
  else if negb (String.eqb document_type "resume"
                || String.eqb document_type "cover_letter") then
    inl (ValueError "Invalid document_type")
  else
    match _execute_initial_merge r1_content r2_content document_type with
    | inl e => inl e
    | inr initial_guidelines =>
        match merge_loop (Z.to_nat (max_iterations engine))
                {| iteration := 0; current_guidelines := initial_guidelines |} with
        | inl e => inl e
        | inr st =>
            let final_validation := run_validators (current_guidelines st) in
            let final_confidence := calculate_confidence_score final_validation None in
            match build_metadata_header (header final_confidence) final_validation with
            | inl e => inl e
            | inr metadata_header =>
                inr {| merged_guidelines := metadata_header +:+ current_guidelines st;
                       confidence_score := final_confidence;
                       validation_results := final_validation;
                       iterations_performed := iteration st |}
            end
        end
    end.
End Engine.

(** The weighted confidence on binary64 floats, in the order the loop
    accumulates it, for the four default weights. *)
Definition confidence_binary64 (s1 s2 s3 s4 : float) : float :=
  let w1 := 0x1.3333333333333p-2%float in
  let w2 := 0.25%float in
  let w3 := 0.25%float in
  let w4 := 0x1.999999999999ap-3%float in
  let total_score := (0 + s1 * w1 + s2 * w2 + s3 * w3 + s4 * w4)%float in
  let total_weight := (0 + w1 + w2 + w3 + w4)%float in
  if PrimFloat.ltb 0 total_weight then (total_score / total_weight)%float
  else 0%float.

End Merger.

(** ** agents/base_agent.py: creating an agent *)

Module Agent.

(** An argument of the call: the state manager of the run, or a string. *)
Inductive argument : Type :=
| TheStateManager
| Text (s : string).

Record BaseAgent : Type := {
  state_manager : argument;
  stage : argument
}.

(** [def __init__(self, state_manager, stage)] *)
Definition parameters : list string := ["state_manager"; "stage"].

Definition unexpected_keyword (name : string) : exn :=
  TypeError ("BaseAgent.__init__() got an unexpected keyword argument '"
             +:+ name +:+ "'").

Definition missing_argument (name : string) : exn :=
  TypeError ("BaseAgent.__init__() missing 1 required positional argument: '"
             +:+ name +:+ "'").

Definition keyword (name : string) (keywords : list (string * argument))
    : option argument :=
  snd <$> List.find (λ k, String.eqb (fst k) name) keywords.

(** [Class(name=value, ...)] for an agent class that does not define
    [__init__] ([DraftWriter], [FactChecker] and the other writing agents
    do not): the keywords are bound to the parameters of
    [BaseAgent.__init__].  A keyword that names no parameter is refused
    when the binding meets it; a parameter left without a value is
    refused after that. *)
Definition BaseAgent_init (keywords : list (string * argument)) : exn + BaseAgent :=
  match List.find (λ k, negb (List.existsb (String.eqb (fst k)) parameters))
                  keywords with
  | Some (name, _) => inl (unexpected_keyword name)
  | None =>
      match keyword "state_manager" keywords, keyword "stage" keywords with
      | Some state_manager, Some stage =>
          inr {| state_manager := state_manager; stage := stage |}
      | None, Some _ => inl (missing_argument "state_manager")
      | Some _, None => inl (missing_argument "stage")
      | None, None =>
          inl (TypeError ("BaseAgent.__init__() missing 2 required positional "
                          +:+ "arguments: 'state_manager' and 'stage'"))
      end
  end.

End Agent.

(** ** orchestrators/base_orchestra.py: the shared context *)

Module Orchestra.

(** A value of [run_context.context_data]. *)
Inductive value : Type :=
| VNone
| VStr (s : string)
| VDict (d : dict)
| VObject.

Definition is_None (v : value) : bool :=
  match v with VNone => true | _ => false end.

(** [value == s] for a string [s] *)
Definition eq_str (v : value) (s : string) : bool :=
  match v with VStr s' => String.eqb s' s | _ => false end.

(** [self.run_context.context_data.get(key, default)] *)
Definition _get_context_data (context_data : gmap string value) (key : string)
    (default : value) : value :=
  match context_data !! key with
  | Some v => v
  | None => default
  end.

End Orchestra.

(** ** orchestrators/writing_polishing_orchestra.py *)

Module Polishing.
Import Decision Evaluator Orchestra.

(** The summary that [execute] returns. *)
Record results : Type := {
  status : string;
  iterations_performed : Z;
  final_version : Z;
  final_score : Q;
  r_initial_score : Q;
  score_improvement : Q;
  r_best_version : Z;
  r_best_score : Q;
  r_evaluation_path : list string;
  final_draft : string;
  max_iterations_reached : bool;
  final_draft_length : Z
}.

(** [BaseWritingPolishingOrchestra.execute], from its first line to the
    creation of the draft writer.  [steps_3_to_10] is everything the
    method does with the draft writer in hand: the draft, the fact check,
    the loop and the summary. *)
Section Orchestra.
Variable steps_3_to_10 : Agent.BaseAgent -> gmap string value -> exn + results.

Definition execute (context_data : gmap string value) : exn + results :=
  let master_resume := _get_context_data context_data "master_resume" VNone in
  let parsed_jd := _get_context_data context_data "parsed_jd" VNone in
  let company_culture := _get_context_data context_data "company_culture" VNone in
  let best_practices_resume :=
    _get_context_data context_data "best_practices_resume" VNone in
  let best_practices_cover_letter :=
    _get_context_data context_data "best_practices_cover_letter" VNone in
  let skills_gap_analysis :=
    _get_context_data context_data "skills_gap_analysis" VNone in
  if is_None master_resume then
    inl (KeyError "Missing required context data: 'master_resume'")
  else if is_None parsed_jd then
    inl (KeyError "Missing required context data: 'parsed_jd'")
  else
    let document_type :=
      _get_context_data context_data "document_type" (VStr "resume") in
    let best_practices :=
      if eq_str document_type "cover_letter" then best_practices_cover_letter
      else best_practices_resume in
    (* DraftWriter(state_manager=self.state_manager,
                   stage_name="initial_draft_writing") *)
    match Agent.BaseAgent_init
            [("state_manager", Agent.TheStateManager);
             ("stage_name", Agent.Text "initial_draft_writing")] with
    | inl e => inl e
    | inr draft_writer =>
        let draft_input : gmap string value :=
          {[ "master_resume" := master_resume;
             "parsed_jd" := parsed_jd;
             "company_culture" := company_culture;
             "best_practices" := best_practices;
             "skills_gap_analysis" := skills_gap_analysis;
             "document_type" := document_type ]} in
        steps_3_to_10 draft_writer draft_input
    end.

End Orchestra.

(** *** The score that the loop hands to the decisions

    What [await evaluator.run(eval_input)] gave the loop, as the loop
    tells it apart: the deferred ["CALL_TASK_TOOL"] instruction, or a
    dict that it reads with [.get]. *)
Inductive reply : Type :=
| TaskInstruction
| Result (d : EvalDict).

(** [current_score = evaluation.score], for the [DocumentEvaluation] that
    the loop builds from the reply: the score that goes to
    [did_score_decrease] and to [is_score_good_enough]. *)
Definition current_score (evaluation_result : reply) : score_value :=
  match evaluation_result with
  | TaskInstruction => Number 0.5%Q
  | Result d => get (d_score d) (Number 0%Q)
  end.

End Polishing.

(** ** orchestrators/fact_checking_loop_orchestra.py *)

Module FactChecking.
Import Orchestra.

(** The local variables of the loop. *)
Record loop_state : Type := {
  iteration : Z;
  current_draft : value;
  final_has_false_facts : bool;
  false_facts_found : list dict
}.

Record results : Type := {
  status : string;
  iterations_performed : Z;
  r_final_has_false_facts : bool;
  r_false_facts_found : list dict;
  final_draft : value;
  max_iterations_reached : bool
}.

(** [FactCheckingLoopOrchestra.execute].  What the method does with a
    fact checker in hand is left to [rest_of_pass] (the pass from
    [fact_check_input] on) and to [final_check] (the run of the final
    checker and the reading of its answer). *)
Section Orchestra.
Variable rest_of_pass : Agent.BaseAgent -> value -> loop_state -> control loop_state.
Variable final_check : Agent.BaseAgent -> value -> loop_state -> exn + loop_state.

Definition loop_body (master_resume : value) (st : loop_state) : control loop_state :=
  let iteration := iteration st + 1 in
  let st := {| iteration := iteration;
               current_draft := current_draft st;
               final_has_false_facts := final_has_false_facts st;
               false_facts_found := false_facts_found st |} in
  (* FactChecker(state_manager=self.state_manager,
                 stage_name=f"fact_checking_iter_{iteration}") *)
  match Agent.BaseAgent_init
          [("state_manager", Agent.TheStateManager);
           ("stage_name", Agent.Text ("fact_checking_iter_" +:+ pretty iteration))] with
  | inl e => Raise e
  | inr fact_checker => rest_of_pass fact_checker master_resume st
  end.

(** [while iteration < max_iterations]; [fuel] bounds the number of
    passes. *)
Fixpoint loop (max_iterations : Z) (master_resume : value) (fuel : nat)
    (st : loop_state) : exn + loop_state :=
  match fuel with
  | 0%nat => inr st
  | S fuel' =>
      if iteration st <? max_iterations then
        match loop_body master_resume st with
        | Continue st' => loop max_iterations master_resume fuel' st'
        | Break st' => inr st'
        | Raise e => inl e
        end
      else inr st
  end.

(** [max_iterations] is [self.run_context.config.max_iterations]. *)
Definition execute (context_data : gmap string value) (max_iterations : Z)
    : exn + results :=
  let draft := _get_context_data context_data "draft" VNone in
  let master_resume := _get_context_data context_data "master_resume" VNone in
  if is_None draft then inl (KeyError "Missing required context data: 'draft'")
  else if is_None master_resume then
    inl (KeyError "Missing required context data: 'master_resume'")
  else
    match loop max_iterations master_resume (Z.to_nat max_iterations)
            {| iteration := 0; current_draft := draft;
               final_has_false_facts := false; false_facts_found := [] |} with
    | inl e => inl e
    | inr st =>
        let max_iterations_reached := max_iterations <=? iteration st in
        let checked :=
          if max_iterations_reached then
            (* FactChecker(state_manager=self.state_manager,
                           stage_name="final_fact_check") *)
            match Agent.BaseAgent_init
                    [("state_manager", Agent.TheStateManager);
                     ("stage_name", Agent.Text "final_fact_check")] with
            | inl e => inl e
            | inr final_checker => final_check final_checker master_resume st
            end
          else inr st in
        match checked with
        | inl e => inl e
        | inr st =>
            let status :=
              if final_has_false_facts st then
                if max_iterations_reached then "max_iterations_exceeded"
                else "has_false_facts"
              else "success" in
            inr {| status := status;
                   iterations_performed := iteration st;
                   r_final_has_false_facts := final_has_false_facts st;
                   r_false_facts_found := false_facts_found st;
                   final_draft := current_draft st;
                   max_iterations_reached := max_iterations_reached |}
        end
    end.

End Orchestra.

End FactChecking.

(** ** state/state_manager.py: artifacts *)

Module Artifacts.

(** What a caller may pass as [content]. *)
Inductive content : Type :=
| Str (s : string)
| Dict (d : dict)
| PyList (l : list any)
| Other.

(** [save_artifact] and [load_artifact] raise [ValueError] and
    [FileNotFoundError], and [IOError] for whatever fails while the file
    is open. *)
Inductive raised : Type :=
| Builtin (e : exn)
| IOError (msg : string).

(** The files under [artifacts/], by path relative to it.  A [.json]
    file holds the document [json.dumps] wrote, or nothing ([None]: the
    file was opened for writing and nothing was written); the files of
    the other formats hold text. *)
Record StateManager : Type := {
  json_files : gmap string (option content);
  text_files : gmap string string
}.

Definition supported_formats : list string := ["json"; "md"; "tex"; "txt"].

(** [self.artifacts_dir / stage / f"{artifact_name}.{format}"] *)
Definition artifact_path (stage artifact_name format : string) : string :=
  stage +:+ "/" +:+ artifact_name +:+ "." +:+ format.

(** Opening the file with mode ['w'] comes before the test of the
    content: when the test fails the file is there, empty, and the
    [ValueError] of the test is raised again as [IOError]. *)
Definition save_artifact (sm : StateManager) (stage artifact_name : string)
    (c : content) (format : string) : (raised + string) * StateManager :=
  if negb (List.existsb (String.eqb format) supported_formats) then
    (inl (Builtin (ValueError "Unsupported format")), sm)
  else
    let artifact_path := artifact_path stage artifact_name format in
    if String.eqb format "json" then
      match c with
      | Dict _ | PyList _ =>
          (inr artifact_path,
           {| json_files := <[artifact_path := Some c]> (json_files sm);
              text_files := text_files sm |})
      | _ =>
          (inl (IOError "Failed to save artifact"),
           {| json_files := <[artifact_path := None]> (json_files sm);
              text_files := text_files sm |})
      end
    else
      match c with
      | Str s =>
          (inr artifact_path,
           {| json_files := json_files sm;
              text_files := <[artifact_path := s]> (text_files sm) |})
      | _ =>
          (inl (IOError "Failed to save artifact"),
           {| json_files := json_files sm;
              text_files := <[artifact_path := EmptyString]> (text_files sm) |})
      end.

(** Reading a file opened in text mode: [newline=None] turns ["\r\n"]
    and a lone ["\r"] into ["\n"].  (Writing, on POSIX, leaves the text
    as it is.) *)
Fixpoint universal_newlines (s : string) : string :=
  match s with
  | EmptyString => EmptyString
  | String c s' =>
      if Ascii.eqb c "013" then
        String "010"
          match s' with
          | String c' s'' =>
              if Ascii.eqb c' "010" then universal_newlines s''
              else universal_newlines s'
          | EmptyString => EmptyString
          end
      else String c (universal_newlines s')
  end.

(** [json.loads] of an empty file raises, and the exception is raised
    again as [IOError]. *)
Definition load_artifact (sm : StateManager) (stage artifact_name format : string)
    : raised + content :=
  let artifact_path := artifact_path stage artifact_name format in
  if String.eqb format "json" then
    match json_files sm !! artifact_path with
    | None => inl (Builtin (FileNotFoundError "Artifact not found"))
    | Some None => inl (IOError "Failed to load artifact")
    | Some (Some result) => inr result
    end
  else
    match text_files sm !! artifact_path with
    | None => inl (Builtin (FileNotFoundError "Artifact not found"))
    | Some result => inr (Str (universal_newlines result))
    end.

End Artifacts.


(** * Properties *)

(** ** Comparisons on scores *)

Lemma Qleb_le (a b : Q) : Qleb a b = true <-> (a <= b)%Q.
Proof. apply Qle_bool_iff. Qed.

Lemma Qltb_lt (a b : Q) : Qltb a b = true <-> (a < b)%Q.
Proof.
  unfold Qltb. rewrite negb_true_iff.
  split.
  - intros H. apply Qnot_le_lt. intros Hle.
    apply Qle_bool_iff in Hle. congruence.
  - intros H. destruct (Qle_bool b a) eqn:E; [|reflexivity].
    apply Qle_bool_iff in E. exfalso. exact (Qlt_not_le _ _ H E).
Qed.

Lemma Qltb_ge (a b : Q) : Qltb a b = false <-> (b <= a)%Q.
Proof.
  unfold Qltb. rewrite negb_false_iff. apply Qle_bool_iff.
Qed.

Lemma Qleb_gt (a b : Q) : Qleb a b = false <-> (b < a)%Q.
Proof.
  rewrite <- Qltb_lt. unfold Qltb, Qleb.
  destruct (Qle_bool a b); simpl; intuition congruence.
Qed.

Lemma py_max_lower (a b : Q) : (a <= py_max a b)%Q.
Proof.
  unfold py_max. destruct (Qltb a b) eqn:E.
  - apply Qltb_lt in E. apply Qlt_le_weak, E.
  - apply Qle_refl.
Qed.

Lemma py_max_upper (a b c : Q) : (a <= c)%Q -> (b <= c)%Q -> (py_max a b <= c)%Q.
Proof. unfold py_max. destruct (Qltb a b); auto. Qed.


(** ** Sorting *)

Lemma StronglySorted_weaken {A : Type} (R S : A -> A -> Prop) (l : list A) :
  (forall x y, R x y -> S x y) -> StronglySorted R l -> StronglySorted S l.
Proof.
  intros HRS. induction 1 as [|x l _ IH Hx]; constructor; [assumption|].
  eapply Forall_impl; [exact Hx|]. intros y. apply HRS.
Qed.

Section SortedFacts.
Context {A K : Type}.
Variable ltb : K -> K -> bool.
Variable key : A -> K.
Variable reverse : bool.

Local Abbreviation bef := (before ltb reverse).
Local Abbreviation ins := (insert_sorted ltb key reverse).
Local Abbreviation srt := (sorted ltb key reverse).

(** [ltb] is a strict weak order: asymmetric, and its complement is
    transitive. *)
Hypothesis ltb_asym : forall a b, ltb a b = true -> ltb b a = false.
Hypothesis ltb_negtrans :
  forall a b c, ltb a b = false -> ltb b c = false -> ltb a c = false.

Lemma before_asym a b : bef a b = true -> bef b a = false.
Proof. unfold before. destruct reverse; apply ltb_asym. Qed.

Lemma before_negtrans a b c :
  bef a b = false -> bef b c = false -> bef a c = false.
Proof. unfold before. destruct reverse; eauto. Qed.

(** [x] comes no later than [y]. *)
Definition in_order (x y : A) : Prop := bef (key y) (key x) = false.

(** [x] and [y] tie. *)
Definition ties (k1 k2 : K) : bool := negb (ltb k1 k2) && negb (ltb k2 k1).

Lemma insert_sorted_Permutation x l : Permutation (ins x l) (x :: l).
Proof.
  induction l as [|y l IH]; simpl; [reflexivity|].
  destruct (bef (key y) (key x)); [|reflexivity].
  rewrite IH. apply perm_swap.
Qed.

Lemma sorted_Permutation l : Permutation (srt l) l.
Proof.
  induction l as [|x l IH]; simpl; [reflexivity|].
  rewrite insert_sorted_Permutation. apply perm_skip, IH.
Qed.

Lemma insert_sorted_StronglySorted x l :
  StronglySorted in_order l -> StronglySorted in_order (ins x l).
Proof.
  induction 1 as [|y l Hl IH Hy]; simpl.
  - repeat constructor.
  - destruct (bef (key y) (key x)) eqn:E.
    + constructor; [assumption|].
      rewrite (insert_sorted_Permutation x l). constructor; [|assumption].
      apply before_asym, E.
    + constructor; [constructor; assumption|].
      constructor; [exact E|].
      eapply Forall_impl; [exact Hy|].
      intros z Hz. unfold in_order in *. eapply before_negtrans; eassumption.
Qed.

Lemma sorted_StronglySorted l : StronglySorted in_order (srt l).
Proof.
  induction l as [|x l IH]; simpl; [constructor|].
  apply insert_sorted_StronglySorted, IH.
Qed.

(** Inserting into a list leaves alone the part of it picked out by a test
    that fails on everything the new element passes. *)
Lemma filter_insert_sorted (p : A -> bool) x l :
  (p x = true -> forall y, bef (key y) (key x) = true -> p y = false) ->
  List.filter p (ins x l) = List.filter p (x :: l).
Proof.
  intros Hp. induction l as [|y l IH]; [reflexivity|].
  simpl. destruct (bef (key y) (key x)) eqn:E; [|reflexivity].
  simpl. rewrite IH. simpl.
  destruct (p x) eqn:Ex; [|reflexivity].
  rewrite (Hp eq_refl y E). reflexivity.
Qed.

Lemma ties_before k1 k2 : ties k1 k2 = true -> bef k1 k2 = false /\ bef k2 k1 = false.
Proof.
  unfold ties, before. rewrite andb_true_iff, !negb_true_iff.
  destruct reverse; tauto.
Qed.

(** Stability: the elements that tie with a given key keep the order they
    had in the input. *)
Lemma sorted_stable (v : K) l :
  List.filter (fun x => ties (key x) v) (srt l)
  = List.filter (fun x => ties (key x) v) l.
Proof.
  induction l as [|x l IH]; [reflexivity|].
  simpl sorted. rewrite filter_insert_sorted.
  - simpl. rewrite IH. reflexivity.
  - intros Hx y Hy. destruct (ties (key y) v) eqn:Ey; [|reflexivity].
    apply ties_before in Hx as [Hxv Hvx]. apply ties_before in Ey as [Hyv Hvy].
    rewrite (before_negtrans _ _ _ Hyv Hvx) in Hy. discriminate.
Qed.

(** Two lists in order with the same elements, no two of which tie, are
    the same list. *)
Lemma in_order_unique l1 l2 :
  StronglySorted in_order l1 -> StronglySorted in_order l2 ->
  Permutation l1 l2 ->
  (forall x y, In x l1 -> In y l1 ->
               bef (key x) (key y) = false -> bef (key y) (key x) = false -> x = y) ->
  l1 = l2.
Proof.
  intros H1 H2 Hp Htie.
  apply (StronglySorted_unique_strong in_order); try assumption.
  intros x y Hx Hy Hxy Hyx. apply Htie.
  - apply list_elem_of_In, Hx.
  - apply list_elem_of_In. rewrite Hp. exact Hy.
  - exact Hyx.
  - exact Hxy.
Qed.

End SortedFacts.

(** ** Length score *)

Section LengthScore.
Import Decision.

Lemma calculate_length_score_zero_target (actual_length : Z) :
  calculate_length_score actual_length 0 = 0%Q.
Proof. reflexivity. Qed.

(** The score is never negative, whatever the two lengths. *)
Lemma calculate_length_score_nonneg (actual_length target_length : Z) :
  (0 <= calculate_length_score actual_length target_length)%Q.
Proof.
  unfold calculate_length_score.
  destruct (target_length =? 0); [discriminate|apply py_max_lower].
Qed.

(** For a positive target the score stays in [0, 1]. *)
Lemma calculate_length_score_positive_target (actual_length target_length : Z) :
  0 < target_length ->
  (0 <= calculate_length_score actual_length target_length <= 1)%Q.
Proof.
  intros Hpos. split; [apply calculate_length_score_nonneg|].
  unfold calculate_length_score.
  destruct (Z.eqb_spec target_length 0) as [->|_]; [discriminate|].
  apply py_max_upper; [discriminate|].
  unfold Qle, Qminus, Qplus, Qopp, Qdiv, Qmult, Qinv, inject_Z; simpl.
  destruct target_length as [|p|p]; try lia. simpl.
  pose proof (Z.abs_nonneg (actual_length - Z.pos p)). nia.
Qed.

(** C10: at [actual_length = 5], [target_length = -10] the function
    returns 2.5, outside [0, 1]: the guard covers a zero target only, and
    a negative one turns the penalty into a bonus. *)
Theorem calculate_length_score_negative_target :
  (calculate_length_score 5 (-10) == 2.5)%Q
  /\ ~ (calculate_length_score 5 (-10) <= 1)%Q.
Proof.
  split.
  - reflexivity.
  - intros H. vm_compute in H. apply H. reflexivity.
Qed.

End LengthScore.

(** ** Ranking job descriptions *)

Section TopJds.
Import Decision.

Lemma Qltb_asym (a b : Q) : Qltb a b = true -> Qltb b a = false.
Proof. rewrite Qltb_lt, Qltb_ge. apply Qlt_le_weak. Qed.

Lemma Qltb_negtrans (a b c : Q) :
  Qltb a b = false -> Qltb b c = false -> Qltb a c = false.
Proof. rewrite !Qltb_ge. intros H1 H2. eapply Qle_trans; eassumption. Qed.

Lemma ties_Qeq_bool (a b : Q) : ties Qltb a b = Qeq_bool a b.
Proof.
  unfold ties. destruct (Qeq_bool a b) eqn:E.
  - apply Qeq_bool_iff in E. rewrite andb_true_iff, !negb_true_iff, !Qltb_ge.
    rewrite E. split; apply Qle_refl.
  - apply not_true_iff_false. intros H.
    rewrite andb_true_iff, !negb_true_iff, !Qltb_ge in H. destruct H as [H1 H2].
    apply not_true_iff_false in E. apply E, Qeq_bool_iff, Qle_antisym; assumption.
Qed.

(** The same match with another score. *)
Definition with_score (m : MatchResult) (s : Q) : MatchResult :=
  {| jd_id := jd_id m; match_score := s; relevance_score := relevance_score m;
     matched_keywords := matched_keywords m; missing_skills := missing_skills m;
     recommendation := recommendation m |}.

Lemma py_slice_to_nat {A : Type} (l : list A) (n : nat) :
  py_slice_to l (Z.of_nat n) = List.firstn n l.
Proof.
  unfold py_slice_to. destruct (Z.leb_spec 0 (Z.of_nat n)); [|lia].
  rewrite Nat2Z.id. reflexivity.
Qed.

(** A negative bound leaves out that many matches from the end of the
    ranking. *)
Lemma select_top_jds_negative (matches : list MatchResult) (n : nat) :
  select_top_jds matches (- Z.of_nat (S n))
  = List.map jd_id (List.firstn (List.length matches - S n)
                      (sorted Qltb match_score true matches)).
Proof.
  unfold select_top_jds, py_slice_to.
  destruct (Z.leb_spec 0 (- Z.of_nat (S n))); [lia|].
  rewrite (Permutation_length (sorted_Permutation Qltb match_score true matches)).
  do 2 f_equal. lia.
Qed.

(** C9: [select_top_jds] ranks the matches by [match_score], highest
    first, and returns the ids of the first [n] of the ranking: the
    ranking holds the same matches, no score in it is followed by a
    higher one, and the matches of equal score stand in their original
    order; with fewer than [n] matches the ids of the whole ranking are
    returned.  For three matches scored 0.91, 0.75 and 0.65, given in any
    order, and [n = 2], the result is the id of the one scored 0.91, then
    the id of the one scored 0.75. *)
Theorem select_top_jds_ranks_by_match_score (matches : list MatchResult) (n : nat) :
  let ranked := sorted Qltb match_score true matches in
  select_top_jds matches (Z.of_nat n) = List.map jd_id (List.firstn n ranked)
  /\ Permutation ranked matches
  /\ StronglySorted (fun a b => (match_score b <= match_score a)%Q) ranked
  /\ (forall v,
        List.filter (fun m => Qeq_bool (match_score m) v) ranked
        = List.filter (fun m => Qeq_bool (match_score m) v) matches)
  /\ ((List.length matches <= n)%nat ->
      select_top_jds matches (Z.of_nat n) = List.map jd_id ranked)
  /\ (forall a b c l,
        Permutation l [with_score a 0.91%Q; with_score b 0.75%Q; with_score c 0.65%Q] ->
        select_top_jds l 2 = [jd_id a; jd_id b]).
Proof.
  intros ranked.
  assert (Hperm : Permutation ranked matches) by apply sorted_Permutation.
  assert (Hsel : select_top_jds matches (Z.of_nat n)
                 = List.map jd_id (List.firstn n ranked)).
  { unfold select_top_jds. rewrite py_slice_to_nat. reflexivity. }
  repeat split.
  - exact Hsel.
  - exact Hperm.
  - eapply StronglySorted_weaken;
      [|apply (sorted_StronglySorted Qltb match_score true Qltb_asym Qltb_negtrans)].
    intros x y H. unfold in_order, before in H. apply Qltb_ge in H. exact H.
  - intros v.
    rewrite (List.filter_ext _ (fun m => ties Qltb (match_score m) v))
      by (intros; symmetry; apply ties_Qeq_bool).
    rewrite (List.filter_ext (fun m => Qeq_bool (match_score m) v)
                             (fun m => ties Qltb (match_score m) v))
      by (intros; symmetry; apply ties_Qeq_bool).
    apply (sorted_stable Qltb match_score true Qltb_negtrans).
  - intros Hlen. rewrite Hsel, List.firstn_all2; [reflexivity|].
    rewrite (Permutation_length Hperm). exact Hlen.
  - intros a b c l Hl. unfold select_top_jds.
    assert (sorted Qltb match_score true l
            = [with_score a 0.91%Q; with_score b 0.75%Q; with_score c 0.65%Q]) as ->;
      [|reflexivity].
    apply (in_order_unique Qltb match_score true).
    + apply sorted_StronglySorted; [apply Qltb_asym|apply Qltb_negtrans].
    + repeat constructor.
    + rewrite sorted_Permutation. exact Hl.
    + intros x y Hx Hy.
      rewrite (sorted_Permutation Qltb match_score true l), Hl in Hx, Hy.
      simpl in Hx, Hy.
      destruct Hx as [<-|[<-|[<-|[]]]], Hy as [<-|[<-|[<-|[]]]];
        try reflexivity; intros H1 H2; discriminate.
Qed.

End TopJds.

(** ** The evaluator's [format_output] *)

Section FormatOutput.
Import Decision Evaluator.


(** A score already in range is stored as it is. *)
Lemma clamp_id (q : Q) :
  (0 <= q <= 1)%Q -> clamp (Number q) = inr q.
Proof.
  intros [H0 H1]. unfold clamp.
  apply Qleb_le in H0. apply Qleb_le in H1. rewrite H0, H1. reflexivity.
Qed.



End FormatOutput.

(** ** The agent pool *)

Section PoolFacts.
Import Pool.
Context {Input Output : Type}.

Local Abbreviation BaseAgent := (Pool.BaseAgent Input Output).
Local Abbreviation task := (Pool.task Input Output).
Local Abbreviation result := (Pool.result Output).
Local Abbreviation loop_state := (Pool.loop_state Input Output).

(** The entry of the result list that an outcome of [agent.run] becomes. *)
Definition result_of (o : outcome Output) : result :=
  match o with
  | Returns o => Value o
  | Raises e => Failed e
  end.

Lemma _execute_one_result_of (agent : BaseAgent) (input_data : Input) (index : nat) :
  _execute_one agent input_data index = (index, result_of (run agent input_data)).
Proof. unfold _execute_one. destruct (run agent input_data); reflexivity. Qed.

(** A pool that its constructor accepts: unbounded, or of size 1 at least. *)
Definition pool_ok (pool : AgentPool) : Prop :=
  match _pool_size pool with
  | Some n => 1 <= n
  | None => True
  end.

Lemma AgentPool_init_ok pool_size pool :
  AgentPool_init pool_size = inr pool -> pool_ok pool.
Proof.
  unfold AgentPool_init, pool_ok.
  destruct pool_size as [n|]; [destruct (Z.ltb_spec n 1)|];
    intros Hinit; inversion Hinit; simpl; [lia|exact I].
Qed.

(** Entering the semaphore moves coroutines from the front of the queue to
    the running ones, loses none, and leaves some coroutine running unless
    there is none at all. *)
Lemma acquire_spec pool (w r : list (nat * task)) :
  pool_ok pool ->
  let (w', r') := acquire pool w r in
  (r' ++ w' = r ++ w)%list /\ ((r ++ w)%list <> [] -> r' <> []).
Proof.
  intros Hok. revert r. induction w as [|t w IH]; intros r; simpl.
  - split; [reflexivity|]. rewrite app_nil_r. auto.
  - destruct (has_slot pool r) eqn:Hslot.
    + specialize (IH (r ++ [t])%list). destruct (acquire pool w (r ++ [t])) as [w' r'].
      destruct IH as [IH1 IH2]. rewrite <- app_assoc in IH1, IH2. simpl in IH1, IH2.
      split; [exact IH1|]. intros _. apply IH2. destruct r; discriminate.
    + split; [reflexivity|]. intros _ ->.
      unfold has_slot, pool_ok in *. destruct (_pool_size pool) as [n|]; [|discriminate].
      simpl in Hslot. apply Z.ltb_ge in Hslot. lia.
Qed.

(** The semaphore's bound: no more coroutines run than the pool allows. *)
Definition within_limit (pool : AgentPool) (r : list (nat * task)) : Prop :=
  match _pool_size pool with
  | Some n => Z.of_nat (List.length r) <= n
  | None => True
  end.

Lemma acquire_within_limit pool (w r : list (nat * task)) :
  within_limit pool r -> within_limit pool (snd (acquire pool w r)).
Proof.
  revert r. induction w as [|t w IH]; intros r Hr; simpl; [exact Hr|].
  destruct (has_slot pool r) eqn:Hslot; [|exact Hr].
  apply IH. unfold within_limit, has_slot in *.
  destruct (_pool_size pool) as [n|]; [|exact I].
  apply Z.ltb_lt in Hslot. rewrite length_app. simpl. lia.
Qed.

Lemma complete_within_limit pool (choice : nat) (st : loop_state) :
  within_limit pool (running st) -> within_limit pool (running (complete choice st)).
Proof.
  unfold complete.
  destruct (running st !! _) as [[position t]|] eqn:Ht; [|auto].
  unfold within_limit. simpl. destruct (_pool_size pool) as [n|]; [|auto].
  intros Hr. rewrite length_delete by eauto. lia.
Qed.

(** What a child of [gather] leaves in the log. *)
Definition logged (child : nat * task) : nat * (nat * result) :=
  (fst child, finish (snd child)).

(** The entries of a state: those logged, and those still to come. *)
Definition entries_of (st : loop_state) : list (nat * (nat * result)) :=
  (finished st ++ List.map logged (running st ++ waiting st))%list.

Definition pending (st : loop_state) : nat :=
  List.length (running st ++ waiting st).

Lemma complete_spec (choice : nat) (st : loop_state) :
  running st <> [] ->
  Permutation (entries_of (complete choice st)) (entries_of st)
  /\ S (pending (complete choice st)) = pending st.
Proof.
  intros Hr. unfold complete.
  set (i := (choice mod List.length (running st))%nat).
  assert (Hi : (i < List.length (running st))%nat).
  { apply Nat.mod_upper_bound. destruct (running st); [congruence|discriminate]. }
  destruct (lookup_lt_is_Some_2 _ _ Hi) as [[position t] Ht]. rewrite Ht.
  unfold entries_of, pending. simpl.
  pose proof (delete_Permutation _ _ _ Ht) as Hp.
  split.
  - rewrite <- app_assoc. apply Permutation_app_head. simpl.
    symmetry. etransitivity;
      [apply Permutation_map, Permutation_app_tail, Hp|reflexivity].
  - apply Permutation_length in Hp. simpl in Hp.
    rewrite !length_app. lia.
Qed.

(** With enough fuel for what is pending, every coroutine gets to finish,
    in some order. *)
Lemma event_loop_spec pool (fuel : nat) :
  pool_ok pool ->
  forall (schedule : list nat) (st : loop_state),
    (pending st <= fuel)%nat ->
    Permutation (finished (event_loop pool schedule fuel st)) (entries_of st).
Proof.
  intros Hok. induction fuel as [|fuel IH]; intros schedule st Hfuel.
  - simpl. unfold pending, entries_of in *.
    destruct (running st ++ waiting st)%list; [|simpl in Hfuel; lia].
    simpl. rewrite app_nil_r. reflexivity.
  - simpl. pose proof (acquire_spec pool (waiting st) (running st) Hok) as Ha.
    destruct (acquire pool (waiting st) (running st)) as [w r].
    destruct Ha as [Ha1 Ha2].
    set (st' := {| waiting := w; running := r; finished := finished st |}).
    assert (Hentries : entries_of st' = entries_of st).
    { unfold entries_of. simpl. rewrite Ha1. reflexivity. }
    assert (Hpending : pending st' = pending st).
    { unfold pending. simpl. rewrite Ha1. reflexivity. }
    destruct (running st ++ waiting st)%list as [|t0 rest] eqn:Hall.
    + apply app_eq_nil in Ha1 as [-> ->].
      assert (Hsame : complete (List.hd 0%nat schedule) st' = st') by reflexivity.
      rewrite Hsame, IH, Hentries; [reflexivity|].
      rewrite Hpending. unfold pending. rewrite Hall. simpl. lia.
    + assert (Hr : running st' <> []) by (simpl; apply Ha2; discriminate).
      destruct (complete_spec (List.hd 0%nat schedule) st' Hr) as [Hp Hn].
      rewrite IH, Hp, Hentries; [reflexivity|]. lia.
Qed.

(** The log holds one entry for each coroutine, under its position. *)
Lemma completion_log_spec pool schedule (tasks : list task) :
  pool_ok pool ->
  Permutation (completion_log pool schedule tasks)
              (zip (List.seq 0 (List.length tasks)) (List.map finish tasks)).
Proof.
  intros Hok. unfold completion_log.
  rewrite (event_loop_spec pool (List.length tasks) Hok).
  - unfold entries_of. simpl.
    generalize 0%nat. induction tasks as [|t tasks IH]; intros start; [reflexivity|].
    simpl. unfold logged at 1. simpl. apply perm_skip, IH.
  - unfold pending. simpl. rewrite length_zip_with, length_seq. lia.
Qed.

Lemma find_by_position {B : Type} (log : list (nat * B)) (position : nat) (x : B) :
  NoDup (List.map fst log) ->
  In (position, x) log ->
  List.find (fun child => (fst child =? position)%nat) log = Some (position, x).
Proof.
  induction log as [|[p y] log IH]; intros Hnd Hin; [destruct Hin|].
  simpl in *. apply NoDup_cons in Hnd as [Hp Hnd].
  destruct Hin as [Heq|Hin].
  - injection Heq as -> ->. rewrite Nat.eqb_refl. reflexivity.
  - destruct (Nat.eqb_spec p position) as [->|_]; [|auto].
    exfalso. apply Hp, list_elem_of_In, in_map_iff. exists (position, x). auto.
Qed.

Lemma omap_seq {B C : Type} (f : nat -> option C) (g : B -> C) (l : list B) (start : nat) :
  (forall i x, l !! i = Some x -> f (start + i)%nat = Some (g x)) ->
  omap f (List.seq start (List.length l)) = List.map g l.
Proof.
  revert start. induction l as [|x l IH]; intros start Hf; [reflexivity|].
  simpl. rewrite <- (Nat.add_0_r start) at 1. rewrite (Hf 0%nat x eq_refl).
  f_equal. apply IH. intros i y Hy.
  replace (S start + i)%nat with (start + S i)%nat by lia. apply Hf. exact Hy.
Qed.


(** *** Sorting the pairs back *)

(** The results in input order. *)
Definition results_of (agents : list BaseAgent) (inputs : list Input) : list result :=
  zip_with (fun agent input_data => result_of (run agent input_data)) agents inputs.

Definition by_index (x y : nat * result) : Prop := (fst x < fst y)%nat.

Lemma finish_enumerate_zip (index : nat) (agents : list BaseAgent) (inputs : list Input) :
  List.map snd (List.map finish (enumerate_zip index agents inputs))
  = results_of agents inputs
  /\ StronglySorted by_index (List.map finish (enumerate_zip index agents inputs))
  /\ Forall (fun x => (index <= fst x)%nat)
            (List.map finish (enumerate_zip index agents inputs)).
Proof.
  revert index inputs.
  induction agents as [|agent agents IH]; intros index [|input_data inputs];
    simpl; try (repeat split; constructor).
  destruct (IH (S index) inputs) as (IH1 & IH2 & IH3).
  assert (Hhead : finish {| t_index := index; t_agent := agent; t_input := input_data |}
                  = (index, result_of (run agent input_data)))
    by apply _execute_one_result_of.
  rewrite Hhead.
  split; [|split].
  - unfold results_of in *. simpl. f_equal. exact IH1.
  - constructor; [exact IH2|].
    eapply Forall_impl; [exact IH3|]. intros x Hx. unfold by_index. simpl in *. lia.
  - constructor; [simpl; lia|].
    eapply Forall_impl; [exact IH3|]. intros x Hx. simpl in Hx. lia.
Qed.

Lemma by_index_inj (l : list (nat * result)) (x y : nat * result) :
  StronglySorted by_index l -> In x l -> In y l -> fst x = fst y -> x = y.
Proof.
  induction 1 as [|a l _ IH Ha]; intros Hx Hy Hxy; [destruct Hx|].
  rewrite Forall_forall in Ha. setoid_rewrite list_elem_of_In in Ha.
  destruct Hx as [<-|Hx], Hy as [<-|Hy]; auto.
  - specialize (Ha _ Hy). unfold by_index in Ha. lia.
  - specialize (Ha _ Hx). unfold by_index in Ha. lia.
Qed.

Lemma Nat_ltb_asym (a b : nat) : (a <? b)%nat = true -> (b <? a)%nat = false.
Proof. rewrite Nat.ltb_lt, Nat.ltb_ge. lia. Qed.

Lemma Nat_ltb_negtrans (a b c : nat) :
  (a <? b)%nat = false -> (b <? c)%nat = false -> (a <? c)%nat = false.
Proof. rewrite !Nat.ltb_ge. lia. Qed.

(** Sorting by index undoes any order of completion. *)
Lemma sorted_by_index (l expected : list (nat * result)) :
  Permutation l expected ->
  StronglySorted by_index expected ->
  sorted Nat.ltb fst false l = expected.
Proof.
  intros Hp Hs.
  apply (in_order_unique Nat.ltb fst false).
  - apply sorted_StronglySorted; [apply Nat_ltb_asym|apply Nat_ltb_negtrans].
  - eapply StronglySorted_weaken; [|exact Hs].
    intros x y Hxy. unfold in_order, before, by_index in *.
    apply Nat.ltb_ge. lia.
  - rewrite sorted_Permutation. exact Hp.
  - intros x y Hx Hy H1 H2. unfold before in H1, H2.
    apply Nat.ltb_ge in H1. apply Nat.ltb_ge in H2.
    rewrite (sorted_Permutation Nat.ltb fst false l), Hp in Hx, Hy.
    apply (by_index_inj expected); [assumption..|lia].
Qed.


(** The sort alone would do: the pairs sorted in the order of completion
    are the pairs in input order. *)
Lemma sorted_completion_log pool schedule
    (agents : list BaseAgent) (inputs : list Input) :
  pool_ok pool ->
  let tasks := enumerate_zip 0 agents inputs in
  sorted Nat.ltb fst false (List.map snd (completion_log pool schedule tasks))
  = List.map finish tasks.
Proof.
  intros Hok tasks.
  destruct (finish_enumerate_zip 0 agents inputs) as (_ & H2 & _).
  apply sorted_by_index; [|exact H2].
  rewrite (completion_log_spec pool schedule tasks Hok).
  rewrite snd_zip by (rewrite length_map, length_seq; lia). reflexivity.
Qed.

End PoolFacts.

Section PoolClaims.
Import Pool.
Context {Input Output : Type}.


End PoolClaims.

Section PoolExamples.
Import Pool.

Definition echo : BaseAgent string string :=
  {| run := fun input_data => Returns ("done " +:+ input_data) |}.

Definition failing : BaseAgent string string :=
  {| run := fun input_data => Raises (ValueError ("failed on " +:+ input_data)) |}.

Definition five_agents : list (BaseAgent string string) :=
  [echo; echo; failing; echo; echo].

Definition five_inputs : list string := ["a"; "b"; "c"; "d"; "e"].

Definition pool_of_two : AgentPool := {| _pool_size := Some 2 |}.

(** Under this schedule the agents finish in the order 1, 0, 3, 2, 4. *)
Definition a_schedule : list nat := [1; 0; 1; 0; 0]%nat.

Lemma completion_log_order :
  List.map fst (completion_log pool_of_two a_schedule
                  (enumerate_zip 0 five_agents five_inputs))
  = [1; 0; 3; 2; 4]%nat.
Proof. reflexivity. Qed.


(** Five agents, a pool of two, the third agent raises. *)
Lemma five_agents_one_failure :
  execute_agents pool_of_two a_schedule five_agents five_inputs
  = inr [Value "done a"; Value "done b"; Failed (ValueError "failed on c");
         Value "done d"; Value "done e"].
Proof. reflexivity. Qed.

(** Lists of different lengths are refused before anything runs. *)
Lemma execute_agents_length_mismatch pool schedule
    (agents : list (BaseAgent string string)) (inputs : list string) :
  List.length agents <> List.length inputs ->
  execute_agents pool schedule agents inputs
  = inl (ValueError "agents and inputs must have same length").
Proof.
  intros H. unfold execute_agents.
  apply Nat.eqb_neq in H. rewrite H. reflexivity.
Qed.

End PoolExamples.

(** ** The pool, with exceptions that are not [Exception]s *)

Section CancellationFacts.
Import Cancellation.
Context {Input Output : Type}.

Local Abbreviation BaseAgent := (Cancellation.BaseAgent Input Output).
Local Abbreviation task := (Cancellation.task Input Output).
Local Abbreviation result := (Pool.result Output).
Local Abbreviation ending := (base_exception + nat * Pool.result Output)%type.
Local Abbreviation loop_state := (Cancellation.loop_state Input Output).

Lemma acquire_keeps_all pool (w r : list (nat * task)) :
  pool_ok pool ->
  let (w', r') := acquire pool w r in
  (r' ++ w' = r ++ w)%list /\ ((r ++ w)%list <> [] -> r' <> []).
Proof.
  intros Hok. revert r. induction w as [|t w IH]; intros r; simpl.
  - split; [reflexivity|]. rewrite app_nil_r. auto.
  - destruct (has_slot pool r) eqn:Hslot.
    + specialize (IH (r ++ [t])%list). destruct (acquire pool w (r ++ [t])) as [w' r'].
      destruct IH as [IH1 IH2]. rewrite <- app_assoc in IH1, IH2. simpl in IH1, IH2.
      split; [exact IH1|]. intros _. apply IH2. destruct r; discriminate.
    + split; [reflexivity|]. intros _ ->.
      unfold has_slot, pool_ok in *. destruct (Pool._pool_size pool) as [n|]; [|discriminate].
      simpl in Hslot. apply Z.ltb_ge in Hslot. lia.
Qed.

(** What a child of [gather] leaves in the log. *)
Definition ended (child : nat * task) : nat * ending :=
  (fst child, finish (snd child)).

Definition endings_of (st : loop_state) : list (nat * ending) :=
  (finished st ++ List.map ended (running st ++ waiting st))%list.

Definition still_pending (st : loop_state) : nat :=
  List.length (running st ++ waiting st).

Lemma complete_keeps_all (choice : nat) (st : loop_state) :
  running st <> [] ->
  Permutation (endings_of (complete choice st)) (endings_of st)
  /\ S (still_pending (complete choice st)) = still_pending st.
Proof.
  intros Hr. unfold complete.
  set (i := (choice mod List.length (running st))%nat).
  assert (Hi : (i < List.length (running st))%nat).
  { apply Nat.mod_upper_bound. destruct (running st); [congruence|discriminate]. }
  destruct (lookup_lt_is_Some_2 _ _ Hi) as [[position t] Ht]. rewrite Ht.
  unfold endings_of, still_pending. simpl.
  pose proof (delete_Permutation _ _ _ Ht) as Hp.
  split.
  - rewrite <- app_assoc. apply Permutation_app_head. simpl.
    symmetry. etransitivity;
      [apply Permutation_map, Permutation_app_tail, Hp|reflexivity].
  - apply Permutation_length in Hp. simpl in Hp.
    rewrite !length_app. lia.
Qed.

Lemma event_loop_ends_all pool (fuel : nat) :
  pool_ok pool ->
  forall (schedule : list nat) (st : loop_state),
    (still_pending st <= fuel)%nat ->
    Permutation (finished (event_loop pool schedule fuel st)) (endings_of st).
Proof.
  intros Hok. induction fuel as [|fuel IH]; intros schedule st Hfuel.
  - simpl. unfold still_pending, endings_of in *.
    destruct (running st ++ waiting st)%list; [|simpl in Hfuel; lia].
    simpl. rewrite app_nil_r. reflexivity.
  - simpl. pose proof (acquire_keeps_all pool (waiting st) (running st) Hok) as Ha.
    destruct (acquire pool (waiting st) (running st)) as [w r].
    destruct Ha as [Ha1 Ha2].
    set (st' := {| waiting := w; running := r; finished := finished st |}).
    assert (Hentries : endings_of st' = endings_of st).
    { unfold endings_of. simpl. rewrite Ha1. reflexivity. }
    assert (Hpending : still_pending st' = still_pending st).
    { unfold still_pending. simpl. rewrite Ha1. reflexivity. }
    destruct (running st ++ waiting st)%list as [|t0 rest] eqn:Hall.
    + apply app_eq_nil in Ha1 as [-> ->].
      assert (Hsame : complete (List.hd 0%nat schedule) st' = st') by reflexivity.
      rewrite Hsame, IH, Hentries; [reflexivity|].
      rewrite Hpending. unfold still_pending. rewrite Hall. simpl. lia.
    + assert (Hr : running st' <> []) by (simpl; apply Ha2; discriminate).
      destruct (complete_keeps_all (List.hd 0%nat schedule) st' Hr) as [Hp Hn].
      rewrite IH, Hp, Hentries; [reflexivity|]. lia.
Qed.

(** The log holds one entry for each coroutine, under its position. *)
Lemma completion_log_ends_all pool schedule (tasks : list task) :
  pool_ok pool ->
  Permutation (completion_log pool schedule tasks)
              (zip (List.seq 0 (List.length tasks)) (List.map finish tasks)).
Proof.
  intros Hok. unfold completion_log.
  rewrite (event_loop_ends_all pool (List.length tasks) Hok).
  - unfold endings_of. simpl.
    generalize 0%nat. induction tasks as [|t tasks IH]; intros start; [reflexivity|].
    simpl. unfold ended at 1. simpl. apply perm_skip, IH.
  - unfold still_pending. simpl. rewrite length_zip_with, length_seq. lia.
Qed.

Lemma first_exception_None (log : list (nat * ending)) :
  first_exception log = None <-> forall position b, ~ In (position, inl b) log.
Proof.
  induction log as [|[p [b|r]] log IH]; simpl.
  - split; [intros _ ? ? []|reflexivity].
  - split; [discriminate|]. intros H. destruct (H p b). left. reflexivity.
  - rewrite IH. split.
    + intros H position b [Heq|Hin]; [discriminate Heq|exact (H _ _ Hin)].
    + intros H position b Hin. apply (H position b). right. exact Hin.
Qed.

Lemma first_exception_Some (log : list (nat * ending)) (b : base_exception) :
  first_exception log = Some b -> exists position, In (position, inl b) log.
Proof.
  induction log as [|[p [b'|r]] log IH]; simpl; [discriminate| |].
  - intros H. injection H as ->. exists p. left. reflexivity.
  - intros H. destruct (IH H) as [position Hin]. exists position. right. exact Hin.
Qed.

(** An exception is in the log exactly when a coroutine ended with it. *)
Lemma exception_in_log pool schedule (tasks : list task) (b : base_exception) :
  pool_ok pool ->
  (exists position, In (position, inl b) (completion_log pool schedule tasks))
  <-> exists t, In t tasks /\ finish t = inl b.
Proof.
  intros Hok.
  pose proof (completion_log_ends_all pool schedule tasks Hok) as Hlog.
  split.
  - intros [position Hin]. apply list_elem_of_In in Hin. rewrite Hlog in Hin.
    apply list_elem_of_lookup in Hin as [i Hi].
    rewrite lookup_zip_with in Hi.
    destruct (List.seq 0 (List.length tasks) !! i) as [p|]; [|discriminate Hi].
    simpl in Hi. rewrite list_lookup_fmap in Hi.
    destruct (tasks !! i) as [t|] eqn:Ht; [|discriminate Hi].
    simpl in Hi. injection Hi as _ Hb.
    exists t. split; [|exact Hb].
    apply list_elem_of_In, list_elem_of_lookup. eauto.
  - intros [t [Hin Hb]]. apply list_elem_of_In, list_elem_of_lookup in Hin as [i Hi].
    exists i. apply list_elem_of_In. rewrite Hlog. apply list_elem_of_lookup. exists i.
    rewrite lookup_zip_with, lookup_seq_lt by (apply lookup_lt_Some in Hi; exact Hi).
    simpl. rewrite list_lookup_fmap, Hi. simpl. rewrite Hb. reflexivity.
Qed.

(** When every coroutine returns, [gather] returns what they returned, in
    the order of its arguments, whatever the order in which they ended. *)
Lemma gather_returns pool schedule (tasks : list task)
    (index_results : list (nat * result)) :
  pool_ok pool ->
  List.map finish tasks = List.map inr index_results ->
  gather pool schedule tasks = inr index_results.
Proof.
  intros Hok Hall. unfold gather.
  pose proof (completion_log_ends_all pool schedule tasks Hok) as Hlog.
  assert (Hlen : List.length tasks = List.length index_results).
  { rewrite <- (length_map finish tasks), Hall, length_map. reflexivity. }
  assert (Hnone : first_exception (completion_log pool schedule tasks) = None).
  { apply first_exception_None. intros position b Hin.
    assert (Hex : exists t, In t tasks /\ finish t = inl b)
      by (apply (exception_in_log pool schedule tasks b Hok); eauto).
    destruct Hex as [t [Ht Hb]].
    assert (Hmap : In (inl b) (List.map finish tasks))
      by (apply in_map_iff; eauto).
    rewrite Hall in Hmap. apply in_map_iff in Hmap as [x [Hx _]]. discriminate Hx. }
  rewrite Hnone. f_equal. rewrite Hlen.
  rewrite <- (map_id index_results) at 2.
  apply omap_seq. intros i x Hx. simpl.
  rewrite (find_by_position _ i (inr x)); [reflexivity| |].
  - rewrite Hlog, fst_zip by (rewrite length_map, length_seq; lia).
    apply NoDup_ListNoDup, List.seq_NoDup.
  - apply list_elem_of_In. rewrite Hlog. apply list_elem_of_lookup. exists i.
    rewrite lookup_zip_with, lookup_seq_lt
      by (rewrite Hlen; apply lookup_lt_Some in Hx; exact Hx).
    simpl. rewrite Hall, list_lookup_fmap, Hx. reflexivity.
Qed.

(** When some coroutine ends with an exception, [gather] raises one that
    a coroutine ended with. *)
Lemma gather_raises pool schedule (tasks : list task) (t : task) (b : base_exception) :
  pool_ok pool ->
  In t tasks -> finish t = inl b ->
  exists b' t', gather pool schedule tasks = inl b' /\ In t' tasks /\ finish t' = inl b'.
Proof.
  intros Hok Hin Hb. unfold gather.
  destruct (first_exception (completion_log pool schedule tasks)) as [b'|] eqn:Hfirst.
  - apply first_exception_Some in Hfirst.
    apply (exception_in_log pool schedule tasks b' Hok) in Hfirst as [t' [Hin' Hb']].
    eauto.
  - exfalso.
    assert (Hex : exists position, In (position, inl b) (completion_log pool schedule tasks))
      by (apply (exception_in_log pool schedule tasks b Hok); eauto).
    destruct Hex as [position Hp].
    exact (proj1 (first_exception_None _) Hfirst position b Hp).
Qed.

(** *** The results in input order *)

(** Nothing that [except Exception] lets through comes out of the agents
    on their inputs. *)
Definition no_escape (agents : list BaseAgent) (inputs : list Input) : Prop :=
  forall i agent input_data b,
    agents !! i = Some agent -> inputs !! i = Some input_data ->
    run agent input_data <> Escapes b.

(** The entry that an outcome of [agent.run] becomes in [results]. *)
Definition captured (o : outcome Output) (results : list result) (i : nat) : Prop :=
  match o with
  | Returns o => results !! i = Some (Pool.Value o)
  | Raises e => results !! i = Some (Pool.Failed e)
  | Escapes _ => False
  end.

Lemma no_escape_tail agent agents input_data inputs :
  no_escape (agent :: agents) (input_data :: inputs) -> no_escape agents inputs.
Proof. intros H i a x b Ha Hx. exact (H (S i) a x b Ha Hx). Qed.

Lemma finish_enumerate_zip_returns (index : nat)
    (agents : list BaseAgent) (inputs : list Input) :
  List.length agents = List.length inputs ->
  no_escape agents inputs ->
  exists results : list result,
    List.map finish (enumerate_zip index agents inputs)
    = List.map inr (zip (List.seq index (List.length results)) results)
    /\ List.length results = List.length inputs
    /\ forall i agent input_data,
         agents !! i = Some agent -> inputs !! i = Some input_data ->
         captured (run agent input_data) results i.
Proof.
  revert index inputs.
  induction agents as [|agent agents IH]; intros index [|input_data inputs] Hlen Hno;
    try discriminate Hlen.
  - exists []. repeat split. intros i agent input_data Ha. discriminate Ha.
  - injection Hlen as Hlen.
    destruct (IH (S index) inputs Hlen (no_escape_tail _ _ _ _ Hno)) as (results & H1 & H2 & H3).
    pose proof (Hno 0%nat agent input_data) as Hhead.
    cbn [enumerate_zip List.map]. unfold finish at 1, _execute_one.
    cbn [t_agent t_input t_index].
    destruct (run agent input_data) as [o|e|b] eqn:Hrun.
    + exists (Pool.Value o :: results). simpl. rewrite H1, H2.
      split; [reflexivity|]. split; [reflexivity|].
      intros [|i] a x Ha Hx; simpl in Ha, Hx.
      * injection Ha as <-. injection Hx as <-. rewrite Hrun. reflexivity.
      * specialize (H3 i a x Ha Hx). destruct (run a x); simpl in *; assumption.
    + exists (Pool.Failed e :: results). simpl. rewrite H1, H2.
      split; [reflexivity|]. split; [reflexivity|].
      intros [|i] a x Ha Hx; simpl in Ha, Hx.
      * injection Ha as <-. injection Hx as <-. rewrite Hrun. reflexivity.
      * specialize (H3 i a x Ha Hx). destruct (run a x); simpl in *; assumption.
    + exfalso. exact (Hhead b eq_refl eq_refl eq_refl).
Qed.

Lemma zip_seq_sorted (results : list result) (start : nat) :
  StronglySorted by_index (zip (List.seq start (List.length results)) results)
  /\ Forall (fun x => (start <= fst x)%nat)
            (zip (List.seq start (List.length results)) results).
Proof.
  revert start. induction results as [|r results IH]; intros start; simpl.
  - split; constructor.
  - destruct (IH (S start)) as [IH1 IH2]. split.
    + constructor; [exact IH1|].
      eapply Forall_impl; [exact IH2|]. intros x Hx. unfold by_index. simpl in *. lia.
    + constructor; [simpl; lia|].
      eapply Forall_impl; [exact IH2|]. intros x Hx. simpl in Hx. lia.
Qed.

(** Whatever the schedule and the size of the pool, when nothing escapes
    [execute_agents] returns the results in input order. *)
Lemma execute_agents_returns pool schedule
    (agents : list BaseAgent) (inputs : list Input) :
  pool_ok pool ->
  List.length agents = List.length inputs ->
  no_escape agents inputs ->
  exists results,
    execute_agents pool schedule agents inputs = inr results
    /\ List.length results = List.length inputs
    /\ forall i agent input_data,
         agents !! i = Some agent -> inputs !! i = Some input_data ->
         captured (run agent input_data) results i.
Proof.
  intros Hok Hlen Hno.
  destruct (finish_enumerate_zip_returns 0 agents inputs Hlen Hno) as (results & H1 & H2 & H3).
  exists results. split; [|split; assumption].
  unfold execute_agents. rewrite Hlen, Nat.eqb_refl. simpl.
  destruct agents as [|agent agents].
  - destruct inputs; [|discriminate Hlen]. destruct results; [reflexivity|discriminate H2].
  - rewrite (gather_returns pool schedule _ _ Hok H1).
    rewrite (sorted_by_index _ (zip (List.seq 0 (List.length results)) results));
      [|reflexivity|apply zip_seq_sorted].
    rewrite snd_zip by (rewrite length_seq; lia). reflexivity.
Qed.

(** When some agent lets an exception through, so does [execute_agents]. *)
Lemma execute_agents_raises pool schedule
    (agents : list BaseAgent) (inputs : list Input)
    (i : nat) (agent : BaseAgent) (input_data : Input) (b : base_exception) :
  pool_ok pool ->
  List.length agents = List.length inputs ->
  agents !! i = Some agent -> inputs !! i = Some input_data ->
  run agent input_data = Escapes b ->
  exists b' j agent' input_data',
    execute_agents pool schedule agents inputs = inl (Base b')
    /\ agents !! j = Some agent' /\ inputs !! j = Some input_data'
    /\ run agent' input_data' = Escapes b'.
Proof.
  intros Hok Hlen Ha Hx Hrun.
  assert (Htasks : forall index (agents : list BaseAgent) (inputs : list Input) t,
             In t (enumerate_zip index agents inputs)
             <-> exists j, agents !! j = Some (t_agent t) /\ inputs !! j = Some (t_input t)
                           /\ t_index t = (index + j)%nat).
  { clear. intros index agents. revert index.
    induction agents as [|a agents IH]; intros index [|x inputs] t; simpl.
    - split; [intros []|intros [j [H _]]; discriminate H].
    - split; [intros []|intros [j [H _]]; discriminate H].
    - split; [intros []|intros [[|j] [_ [H _]]]; discriminate H].
    - rewrite IH. split.
      + intros [<-|[j (H1 & H2 & H3)]].
        * exists 0%nat. simpl. repeat split. lia.
        * exists (S j). simpl. repeat split; try assumption. lia.
      + intros [[|j] (H1 & H2 & H3)]; simpl in H1, H2.
        * left. destruct t. simpl in *. injection H1 as <-. injection H2 as <-.
          f_equal. lia.
        * right. exists j. repeat split; try assumption. lia. }
  unfold execute_agents. rewrite Hlen, Nat.eqb_refl. simpl.
  destruct agents as [|agent0 agents]; [discriminate Ha|].
  set (tasks := enumerate_zip 0 (agent0 :: agents) inputs).
  assert (Hin : In {| t_index := i; t_agent := agent; t_input := input_data |} tasks).
  { apply Htasks. exists i. simpl. auto. }
  destruct (gather_raises pool schedule tasks _ b Hok Hin) as (b' & t' & Hg & Hin' & Hb').
  { unfold finish, _execute_one. simpl. rewrite Hrun. reflexivity. }
  rewrite Hg. apply Htasks in Hin' as [j (H1 & H2 & _)].
  exists b', j, (t_agent t'), (t_input t'). repeat split; try assumption.
  unfold finish, _execute_one in Hb'. destruct (run (t_agent t') (t_input t')); congruence.
Qed.

(** C2, as the code has it: for agents and inputs of the same length N
    such that no agent ends with an exception that [except Exception] lets
    through, for every pool that the constructor accepts (size 1, any
    size, unbounded) and every order in which the agents finish,
    [execute_agents] returns N results, and the result at index i is what
    [run] of agent i does on input i: its output, or the exception it
    raised. *)
Theorem execute_agents_preserves_order
    (pool_size : option Z) (pool : Pool.AgentPool) (schedule : list nat)
    (agents : list BaseAgent) (inputs : list Input) :
  Pool.AgentPool_init pool_size = inr pool ->
  List.length agents = List.length inputs ->
  (forall i agent input_data b,
     agents !! i = Some agent -> inputs !! i = Some input_data ->
     run agent input_data <> Escapes b) ->
  exists results,
    execute_agents pool schedule agents inputs = inr results
    /\ List.length results = List.length inputs
    /\ forall i agent input_data,
         agents !! i = Some agent -> inputs !! i = Some input_data ->
         match run agent input_data with
         | Returns o => results !! i = Some (Pool.Value o)
         | Raises e => results !! i = Some (Pool.Failed e)
         | Escapes _ => False
         end.
Proof.
  intros Hinit Hlen Hno.
  apply execute_agents_returns; eauto using AgentPool_init_ok.
Qed.

(** X7: How a call of [execute_agents] ends.  Lists of different lengths
    raise [ValueError] before anything runs.  Otherwise the call returns
    when every agent returns or raises an [Exception], and it raises an
    exception that one of the agents let through when there is one. *)
Theorem execute_agents_outcomes
    (pool_size : option Z) (pool : Pool.AgentPool) (schedule : list nat)
    (agents : list BaseAgent) (inputs : list Input) :
  Pool.AgentPool_init pool_size = inr pool ->
  (List.length agents <> List.length inputs ->
   execute_agents pool schedule agents inputs
   = inl (Exc (ValueError "agents and inputs must have same length")))
  /\ (List.length agents = List.length inputs ->
      no_escape agents inputs ->
      exists results,
        execute_agents pool schedule agents inputs = inr results
        /\ List.length results = List.length inputs)
  /\ (List.length agents = List.length inputs ->
      ~ no_escape agents inputs ->
      exists b j agent input_data,
        execute_agents pool schedule agents inputs = inl (Base b)
        /\ agents !! j = Some agent /\ inputs !! j = Some input_data
        /\ run agent input_data = Escapes b).
Proof.
  intros Hinit. apply AgentPool_init_ok in Hinit.
  split; [|split].
  - intros H. unfold execute_agents. apply Nat.eqb_neq in H. rewrite H. reflexivity.
  - intros Hlen Hno.
    destruct (execute_agents_returns pool schedule agents inputs Hinit Hlen Hno)
      as (results & H1 & H2 & _).
    eauto.
  - intros Hlen Hesc.
    assert (Hex : exists i agent input_data b,
               agents !! i = Some agent /\ inputs !! i = Some input_data
               /\ run agent input_data = Escapes b).
    { clear Hinit schedule. revert inputs Hlen Hesc.
      induction agents as [|a agents IH]; intros [|x inputs] Hlen Hesc;
        try discriminate Hlen.
      - exfalso. apply Hesc. intros i agent input_data b H. discriminate H.
      - destruct (run a x) as [o|e|b] eqn:Hrun.
        + destruct (IH inputs) as (i & agent & input_data & b & H1 & H2 & H3).
          * simpl in Hlen. lia.
          * intros Hno. apply Hesc. intros [|i] agent input_data b Ha Hx; simpl in Ha, Hx.
            -- injection Ha as <-. injection Hx as <-. congruence.
            -- exact (Hno i agent input_data b Ha Hx).
          * exists (S i), agent, input_data, b. auto.
        + destruct (IH inputs) as (i & agent & input_data & b & H1 & H2 & H3).
          * simpl in Hlen. lia.
          * intros Hno. apply Hesc. intros [|i] agent input_data b Ha Hx; simpl in Ha, Hx.
            -- injection Ha as <-. injection Hx as <-. congruence.
            -- exact (Hno i agent input_data b Ha Hx).
          * exists (S i), agent, input_data, b. auto.
        + exists 0%nat, a, x, b. auto. }
    destruct Hex as (i & agent & input_data & b & Ha & Hx & Hrun).
    exact (execute_agents_raises pool schedule agents inputs i agent input_data b
             Hinit Hlen Ha Hx Hrun).
Qed.

Lemma create_agents_returns (agent_factory : Input -> raised + BaseAgent)
    (inputs : list Input) :
  (forall input_data, In input_data inputs ->
     exists agent, agent_factory input_data = inr agent) ->
  exists agents,
    create_agents agent_factory inputs = inr agents
    /\ List.length agents = List.length inputs
    /\ forall i agent, agents !! i = Some agent ->
         exists input_data,
           inputs !! i = Some input_data /\ agent_factory input_data = inr agent.
Proof.
  induction inputs as [|x inputs IH]; intros Hall.
  - exists []. repeat split. intros i agent H. discriminate H.
  - destruct (Hall x (or_introl eq_refl)) as [a Ha].
    destruct IH as (agents & H1 & H2 & H3); [intros y Hy; apply Hall; right; exact Hy|].
    exists (a :: agents). simpl. rewrite Ha, H1, H2. repeat split.
    intros [|i] agent Hi; simpl in Hi.
    + injection Hi as <-. exists x. auto.
    + exact (H3 i agent Hi).
Qed.

(** X8: [execute_batches], with a factory that returns an agent for every
    input and agents that return or raise an [Exception], returns one
    result for each input: result [i] is what the agent made for input
    [i] does with input [i]. *)
Theorem execute_batches_results
    (pool_size : option Z) (pool : Pool.AgentPool) (schedule : list nat)
    (agent_factory : Input -> raised + BaseAgent) (inputs : list Input) :
  Pool.AgentPool_init pool_size = inr pool ->
  (forall input_data, In input_data inputs ->
     exists agent, agent_factory input_data = inr agent
                   /\ forall b, run agent input_data <> Escapes b) ->
  exists results,
    execute_batches pool schedule agent_factory inputs = inr results
    /\ List.length results = List.length inputs
    /\ forall i input_data agent,
         inputs !! i = Some input_data -> agent_factory input_data = inr agent ->
         match run agent input_data with
         | Returns o => results !! i = Some (Pool.Value o)
         | Raises e => results !! i = Some (Pool.Failed e)
         | Escapes _ => False
         end.
Proof.
  intros Hinit Hall. apply AgentPool_init_ok in Hinit.
  destruct (create_agents_returns agent_factory inputs) as (agents & H1 & H2 & H3).
  { intros x Hx. destruct (Hall x Hx) as [a [Ha _]]. eauto. }
  assert (Hno : no_escape agents inputs).
  { intros i agent input_data b Ha Hx.
    destruct (H3 i agent Ha) as (x & Hx' & Hf). rewrite Hx in Hx'. injection Hx' as <-.
    destruct (Hall input_data) as (a & Ha' & Hne).
    - apply list_elem_of_In, list_elem_of_lookup. eauto.
    - rewrite Hf in Ha'. injection Ha' as <-. apply Hne. }
  destruct (execute_agents_returns pool schedule agents inputs Hinit H2 Hno)
    as (results & R1 & R2 & R3).
  exists results. unfold execute_batches. rewrite H1.
  split; [exact R1|]. split; [exact R2|].
  intros i input_data agent Hx Hf.
  destruct (agents !! i) as [a|] eqn:Ha.
  - destruct (H3 i a Ha) as (x & Hx' & Hf'). rewrite Hx in Hx'. injection Hx' as <-.
    rewrite Hf in Hf'. injection Hf' as <-.
    exact (R3 i agent input_data Ha Hx).
  - exfalso. apply lookup_ge_None in Ha. apply lookup_lt_Some in Hx. lia.
Qed.

End CancellationFacts.

Section CancellationExamples.
Import Cancellation.

Definition echoing : BaseAgent string string :=
  {| run := fun input_data => Returns ("done " +:+ input_data) |}.

Definition raising : BaseAgent string string :=
  {| run := fun input_data => Raises (ValueError ("failed on " +:+ input_data)) |}.

(** An agent whose [run] is cancelled. *)
Definition cancelled : BaseAgent string string :=
  {| run := fun _ => Escapes CancelledError |}.

Lemma execute_agents_preserves_order_witness :
  exists results,
    execute_agents pool_of_two a_schedule
      [echoing; echoing; raising; echoing; echoing] five_inputs = inr results
    /\ List.length results = List.length five_inputs
    /\ forall i agent input_data,
         [echoing; echoing; raising; echoing; echoing] !! i = Some agent ->
         five_inputs !! i = Some input_data ->
         match run agent input_data with
         | Returns o => results !! i = Some (Pool.Value o)
         | Raises e => results !! i = Some (Pool.Failed e)
         | Escapes _ => False
         end.
Proof.
  apply (execute_agents_preserves_order (Some 2) pool_of_two a_schedule
           [echoing; echoing; raising; echoing; echoing] five_inputs eq_refl eq_refl).
  intros [|[|[|[|[|i]]]]] agent input_data b Ha Hx; simpl in Ha;
    try discriminate Ha; injection Ha as <-; discriminate.
Defined.

(** C2 as the claim has it fails on three units of which the second is
    cancelled: for the three inputs, [execute_agents] returns no list of
    three results; it raises [CancelledError]. *)
Lemma a_cancelled_unit_leaves_no_results :
  List.length [echoing; cancelled; echoing] = List.length ["a"; "b"; "c"]
  /\ execute_agents pool_of_two a_schedule [echoing; cancelled; echoing] ["a"; "b"; "c"]
     = inl (Base CancelledError)
  /\ ~ exists results,
         execute_agents pool_of_two a_schedule [echoing; cancelled; echoing]
           ["a"; "b"; "c"] = inr results
         /\ List.length results = 3%nat.
Proof.
  split; [reflexivity|]. split; [reflexivity|].
  intros [results [H _]]. discriminate H.
Qed.

Lemma execute_agents_outcomes_witness :
  (List.length [echoing; cancelled; echoing] <> List.length ["a"; "b"; "c"] ->
   execute_agents pool_of_two a_schedule [echoing; cancelled; echoing] ["a"; "b"; "c"]
   = inl (Exc (ValueError "agents and inputs must have same length")))
  /\ (List.length [echoing; cancelled; echoing] = List.length ["a"; "b"; "c"] ->
      no_escape [echoing; cancelled; echoing] ["a"; "b"; "c"] ->
      exists results,
        execute_agents pool_of_two a_schedule [echoing; cancelled; echoing]
          ["a"; "b"; "c"] = inr results
        /\ List.length results = List.length ["a"; "b"; "c"])
  /\ (List.length [echoing; cancelled; echoing] = List.length ["a"; "b"; "c"] ->
      ~ no_escape [echoing; cancelled; echoing] ["a"; "b"; "c"] ->
      exists b j agent input_data,
        execute_agents pool_of_two a_schedule [echoing; cancelled; echoing]
          ["a"; "b"; "c"] = inl (Base b)
        /\ [echoing; cancelled; echoing] !! j = Some agent
        /\ ["a"; "b"; "c"] !! j = Some input_data
        /\ run agent input_data = Escapes b).
Proof.
  exact (execute_agents_outcomes (Some 2) pool_of_two a_schedule
           [echoing; cancelled; echoing] ["a"; "b"; "c"] eq_refl).
Defined.

Lemma execute_batches_results_witness :
  exists results,
    execute_batches pool_of_two a_schedule (fun _ => inr echoing) five_inputs
    = inr results
    /\ List.length results = List.length five_inputs
    /\ forall i input_data agent,
         five_inputs !! i = Some input_data ->
         (fun _ : string => @inr raised _ echoing) input_data = inr agent ->
         match run agent input_data with
         | Returns o => results !! i = Some (Pool.Value o)
         | Raises e => results !! i = Some (Pool.Failed e)
         | Escapes _ => False
         end.
Proof.
  apply (execute_batches_results (Some 2) pool_of_two a_schedule
           (fun _ => inr echoing) five_inputs eq_refl).
  intros input_data _. exists echoing. split; [reflexivity|]. intros b. discriminate.
Defined.

End CancellationExamples.

(** ** Latest checkpoint *)

Section LatestCheckpoint.
Import State.

Definition midnight : datetime :=
  {| year := 2025; month := 1; day := 1; hour := 0; minute := 0; second := 0 |}.

Definition one_second_later : datetime :=
  {| year := 2025; month := 1; day := 1; hour := 0; minute := 0; second := 1 |}.

(** A run that checkpoints stage "writing" and, a second later, stage
    "alpha". *)
Definition two_checkpoints : StateManager :=
  let sm := snd (save_checkpoint empty_run "writing" ∅ midnight) in
  snd (save_checkpoint sm "alpha" ∅ one_second_later).

(** C6: with no checkpoint saved the latest one is [None]; but after
    "writing" is checkpointed and "alpha" a second later, the files are
    listed by name, "writing_..." ahead of "alpha_...", and the checkpoint
    that is loaded as the latest is the older one. *)
Theorem load_latest_checkpoint_sorts_by_stage_name :
  load_latest_checkpoint empty_run = None
  /\ instant midnight < instant one_second_later
  /\ list_checkpoints two_checkpoints
     = ["writing_20250101_000000.json"; "alpha_20250101_000001.json"]
  /\ load_latest_checkpoint two_checkpoints
     = Some ("writing",
             <["checkpoint_timestamp" := AnyStr "2025-01-01T00:00:00Z"]>
               (<["stage" := AnyStr "writing"]> ∅)).
Proof.
  split; [reflexivity|].
  split; [reflexivity|].
  split; vm_compute; reflexivity.
Qed.

End LatestCheckpoint.

(** ** Version numbers *)

Section VersionNumbers.
Import State Version.

Lemma max_of_spec (numbers : list Z) (m : Z) :
  max_of numbers = Some m <-> In m numbers /\ forall n, In n numbers -> n <= m.
Proof.
  revert m. induction numbers as [|x numbers IH]; intros m; simpl.
  - split; [discriminate|intros [[] _]].
  - destruct (max_of numbers) as [m'|] eqn:E.
    + destruct (proj1 (IH m') eq_refl) as [Hin Hub].
      split.
      * intros H. injection H as <-. split.
        -- destruct (Z.max_spec x m') as [[_ ->]|[_ ->]]; auto.
        -- intros n [<-|Hn]; [lia|]. specialize (Hub n Hn). lia.
      * intros [Hm Hb]. f_equal.
        assert (x <= m) by auto. assert (m' <= m) by auto.
        destruct Hm as [<-|Hm]; [lia|]. specialize (Hub m Hm). lia.
    + assert (Hnil : numbers = []).
      { destruct numbers as [|y numbers]; [reflexivity|].
        simpl in E. destruct (max_of numbers); discriminate. }
      subst numbers. split.
      * intros H. injection H as <-. split; [auto|]. intros n [<-|[]]. lia.
      * intros [[<-|[]] _]. reflexivity.
Qed.

Lemma max_of_None (numbers : list Z) : max_of numbers = None <-> numbers = [].
Proof.
  destruct numbers as [|x numbers]; simpl; [tauto|].
  split; [destruct (max_of numbers)|]; discriminate.
Qed.

(** The highest version number in a version directory. *)
Definition max_key (version_dir : gmap Z version_data) : option Z :=
  max_of (List.map fst (map_to_list version_dir)).

Lemma In_keys (version_dir : gmap Z version_data) (n : Z) :
  In n (List.map fst (map_to_list version_dir)) <-> is_Some (version_dir !! n).
Proof.
  rewrite in_map_iff. split.
  - intros [[k v] [<- H]]. apply list_elem_of_In, elem_of_map_to_list in H. eauto.
  - intros [v H]. exists (n, v). split; [reflexivity|].
    apply list_elem_of_In, elem_of_map_to_list, H.
Qed.

Lemma max_key_spec (version_dir : gmap Z version_data) (m : Z) :
  max_key version_dir = Some m
  <-> is_Some (version_dir !! m) /\ forall n, is_Some (version_dir !! n) -> n <= m.
Proof.
  unfold max_key. rewrite max_of_spec, In_keys.
  split; intros [H1 H2]; (split; [exact H1|]); intros n Hn; apply H2, In_keys, Hn.
Qed.

(** The number the next [store] will take: one more than the latest, 1
    without a latest. *)
Definition next_version (sm : StateManager) (document_id : string) : Z :=
  match get_latest_version sm document_id with
  | inr (latest_num, _) => latest_num + 1
  | inl _ => 1
  end.

Lemma get_latest_version_max_key sm document_id version_dir m :
  versions sm !! document_id = Some version_dir ->
  max_key version_dir = Some m ->
  exists data, get_latest_version sm document_id = inr (m, data).
Proof.
  intros Hdir Hmax. unfold get_latest_version. rewrite Hdir.
  fold (max_key version_dir). rewrite Hmax.
  apply max_key_spec in Hmax as [[data Hdata] _].
  unfold load_version. rewrite Hdir. simpl. rewrite Hdata. eauto.
Qed.

(** After a [store] the latest version is the one just stored. *)
Lemma next_version_save_version sm document_id content metadata now :
  next_version
    (save_version sm document_id (next_version sm document_id) content metadata now)
    document_id
  = next_version sm document_id + 1.
Proof.
  set (next := next_version sm document_id).
  set (version_dir := default ∅ (versions sm !! document_id)).
  assert (Hnew : forall n, is_Some (version_dir !! n) -> n < next).
  { intros n Hn. subst next version_dir. unfold next_version, get_latest_version.
    destruct (versions sm !! document_id) as [dir|] eqn:Hdir; simpl in Hn;
      [|rewrite lookup_empty in Hn; destruct Hn; discriminate].
    fold (max_key dir).
    destruct (max_key dir) as [m|] eqn:Hmax.
    - pose proof Hmax as Hspec. apply max_key_spec in Hspec as [[data Hdata] Hub].
      unfold load_version. rewrite Hdir. simpl. rewrite Hdata.
      specialize (Hub n Hn). lia.
    - apply max_of_None in Hmax. apply In_keys in Hn. rewrite Hmax in Hn. destruct Hn. }
  unfold save_version. fold version_dir.
  match goal with
  | |- next_version ?sm' _ = _ =>
      destruct (get_latest_version_max_key sm' document_id
                  (<[next := {| version := next; State.content := content;
                                State.metadata := metadata;
                                timestamp := isoformat_Z now |}]> version_dir) next)
        as [data Hlatest]
  end.
  - simpl. apply lookup_insert_eq.
  - apply max_key_spec. split.
    + rewrite lookup_insert_eq. eauto.
    + intros n Hn. destruct (decide (next = n)) as [<-|Hne]; [lia|].
      rewrite lookup_insert_ne in Hn by assumption. specialize (Hnew n Hn). lia.
  - unfold next_version at 1. rewrite Hlatest. reflexivity.
Qed.

Lemma execute_store sm document_id content metadata now :
  exists out,
    execute sm (store_input document_id content metadata) now
    = inr (out, save_version sm document_id (next_version sm document_id)
                  content metadata now)
    /\ out_version_num out = next_version sm document_id.
Proof.
  unfold execute, store_input, next_version. simpl.
  destruct (get_latest_version sm document_id) as [e|[latest_num data]];
    eexists; split; reflexivity.
Qed.

(** The integers [first, first + 1, ...], [count] of them. *)
Definition consecutive (first : Z) (count : nat) : list Z :=
  List.map (fun i => first + Z.of_nat i) (List.seq 0 count).

Lemma consecutive_S (first : Z) (count : nat) :
  consecutive first (S count) = first :: consecutive (first + 1) count.
Proof.
  unfold consecutive. simpl. f_equal; [lia|].
  rewrite <- List.seq_shift, List.map_map. apply List.map_ext. intros i. lia.
Qed.

Lemma consecutive_increasing (first : Z) (count : nat) :
  StronglySorted (fun a b => a < b) (consecutive first count).
Proof.
  revert first. induction count as [|n IH]; intros first; [constructor|].
  rewrite consecutive_S. constructor; [apply IH|].
  unfold consecutive. apply Forall_forall. intros x Hx.
  apply list_elem_of_In, in_map_iff in Hx as [i [<- _]]. lia.
Qed.

Lemma consecutive_step (first : Z) (count i : nat) (a b : Z) :
  consecutive first count !! i = Some a ->
  consecutive first count !! S i = Some b ->
  b = a + 1.
Proof.
  unfold consecutive. intros Ha Hb.
  rewrite list_lookup_fmap in Ha, Hb.
  destruct (List.seq 0 count !! i) as [x|] eqn:Hx; [|discriminate].
  destruct (List.seq 0 count !! S i) as [y|] eqn:Hy; [|discriminate].
  apply lookup_seq in Hx as [-> _]. apply lookup_seq in Hy as [-> _].
  simpl in Ha, Hb. injection Ha as <-. injection Hb as <-. lia.
Qed.

(** C5: for any document id and any state of the store, N consecutive
    [store] calls return the N consecutive integers that follow the latest
    stored version number; without a stored version they return
    1, 2, ..., N. *)
Theorem store_numbers_are_consecutive
    (sm : StateManager) (document_id : string)
    (calls : list (string * dict * datetime)) :
  fst (store_all sm document_id calls)
  = consecutive (next_version sm document_id) (List.length calls)
  /\ (versions sm !! document_id = None ->
      fst (store_all sm document_id calls) = consecutive 1 (List.length calls))
  /\ StronglySorted (fun a b => a < b) (fst (store_all sm document_id calls))
  /\ (forall i a b,
        fst (store_all sm document_id calls) !! i = Some a ->
        fst (store_all sm document_id calls) !! S i = Some b ->
        b = a + 1).
Proof.
  assert (Hmain : forall sm,
             fst (store_all sm document_id calls)
             = consecutive (next_version sm document_id) (List.length calls)).
  { clear sm. induction calls as [|[[content metadata] now] calls IH]; intros sm;
      [reflexivity|].
    cbn [store_all List.length].
    destruct (execute_store sm document_id content metadata now)
      as (out & -> & Hout).
    specialize (IH (save_version sm document_id (next_version sm document_id)
                      content metadata now)).
    destruct (store_all _ document_id calls) as [numbers sm''].
    simpl in *. rewrite consecutive_S, Hout, IH, next_version_save_version.
    reflexivity. }
  rewrite Hmain. split; [reflexivity|]. split; [|split].
  - intros Hnone. unfold next_version, get_latest_version. rewrite Hnone. reflexivity.
  - apply consecutive_increasing.
  - apply consecutive_step.
Qed.

End VersionNumbers.

Section VersionExamples.
Import State Version.

(** Three stores into an empty run directory, then one for another
    document. *)
Lemma three_stores :
  let now := {| year := 2025; month := 10; day := 20;
                hour := 10; minute := 0; second := 0 |} in
  let calls := [("# Resume, first draft", ∅, now); ("# Resume, second draft", ∅, now);
                ("# Resume, third draft", ∅, now)] in
  let (numbers, sm) := store_all empty_run "resume" calls in
  numbers = [1; 2; 3]
  /\ fst (store_all sm "cover_letter" [("Dear hiring manager", ∅, now)]) = [1]
  /\ fst (store_all sm "resume" [("# Resume, fourth draft", ∅, now)]) = [4].
Proof. vm_compute. repeat split. Qed.

End VersionExamples.

(** ** Weighted confidence and the merge loop *)

Section Confidence.
Import Merger.

(** The four validators, in the order [_run_validators] lists them, with
    the scores of the scenario. *)
Definition scenario_scores : list (string * Q) :=
  [("r1_principles", 0.9%Q); ("r2_examples", 0.6%Q);
   ("section_completeness", 0.8%Q); ("actionability", 0.7%Q)].

Definition names_and_scores (validation_results : list (string * ValidationResult))
    : list (string * Q) :=
  List.map (λ '(name, result), (name, score result)) validation_results.

Definition scenario_results : list (string * ValidationResult) :=
  List.map (λ '(name, s),
              (name, {| passed := false; score := s; details := "details";
                        issues := []; coverage := (s * 100)%Q |}))
           scenario_scores.

(** The confidence reads the names and the scores only. *)
Lemma calculate_confidence_score_scenario
    (validation_results : list (string * ValidationResult)) :
  names_and_scores validation_results = scenario_scores ->
  calculate_confidence_score validation_results None
  = calculate_confidence_score scenario_results None.
Proof.
  intros H. unfold names_and_scores, scenario_scores in H.
  destruct validation_results as [|[n1 r1] [|[n2 r2] [|[n3 r3] [|[n4 r4] [|]]]]];
    try discriminate H.
  simpl in H. injection H as -> E1 -> E2 -> E3 -> E4.
  unfold calculate_confidence_score, scenario_results, scenario_scores.
  cbn [List.map List.fold_left score List.length].
  rewrite E1, E2, E3, E4. reflexivity.
Qed.

(** The weighted confidence of the scenario is not 0.755. *)
Lemma confidence_of_scenario_is_not_0755 :
  ~ (calculate_confidence_score scenario_results None == 0.755)%Q.
Proof. intros H. vm_compute in H. discriminate H. Qed.

(** C7, as the code has it: the four scores 0.9, 0.6, 0.8, 0.7 under the
    weights 0.30, 0.25, 0.25, 0.20 give a confidence of 0.76; against the
    threshold 0.85 the pass does not stop on quality, and it calls the
    refinement (going on with the refined guidelines, or raising what the
    call raised) on every pass but the last one allowed, where it leaves
    the loop without refining. *)
Theorem confidence_of_scenario_triggers_refinement
    (run_validators : string -> list (string * ValidationResult))
    (execute_refinement : string -> list string -> exn + string)
    (limit : Z) (st : merge_state) :
  names_and_scores (run_validators (current_guidelines st)) = scenario_scores ->
  let engine := {| max_iterations := limit; quality_threshold := 0.85%Q |} in
  (calculate_confidence_score (run_validators (current_guidelines st)) None == 0.76)%Q
  /\ merge_body run_validators execute_refinement engine st
     = if limit <=? iteration st + 1 then
         Break {| iteration := iteration st + 1;
                  current_guidelines := current_guidelines st |}
       else
         match execute_refinement (current_guidelines st)
                 (_extract_validation_issues (run_validators (current_guidelines st))) with
         | inl e => Raise e
         | inr refined =>
             Continue {| iteration := iteration st + 1; current_guidelines := refined |}
         end.
Proof.
  intros H engine.
  pose proof (calculate_confidence_score_scenario _ H) as Hc.
  split.
  - rewrite Hc. reflexivity.
  - unfold merge_body. rewrite Hc. reflexivity.
Qed.

Lemma confidence_of_scenario_triggers_refinement_witness :
  names_and_scores scenario_results = scenario_scores
  /\ (calculate_confidence_score scenario_results None == 0.76)%Q
  /\ merge_body (λ _, scenario_results) (λ g _, inr (g +:+ " (refined)"))
       {| max_iterations := 3; quality_threshold := 0.85%Q |}
       {| iteration := 0; current_guidelines := "guidelines" |}
     = Continue {| iteration := 1; current_guidelines := "guidelines (refined)" |}.
Proof.
  split; [reflexivity|].
  pose proof (confidence_of_scenario_triggers_refinement
                (λ _, scenario_results) (λ g _, inr (g +:+ " (refined)")) 3
                {| iteration := 0; current_guidelines := "guidelines" |}
                eq_refl) as [H1 H2].
  split; [exact H1|exact H2].
Defined.

(** The same sum on binary64 floats: 0.7600000000000001, below 0.85. *)
Lemma confidence_of_scenario_binary64 :
  confidence_binary64 0x1.ccccccccccccdp-1 0x1.3333333333333p-1
                      0x1.999999999999ap-1 0x1.6666666666666p-1
  = 0x1.851eb851eb853p-1%float
  /\ PrimFloat.leb 0x1.b333333333333p-1 0x1.851eb851eb853p-1 = false.
Proof. split; vm_compute; reflexivity. Qed.

End Confidence.

(** ** The writing and polishing orchestra *)

Section PolishingRun.
Import Orchestra Polishing.

(** The writing and the fact-checking orchestra create each of their
    agents with the keyword [stage_name]; the parameter is called
    [stage]. *)
Lemma stage_name_is_refused (stage_name : Agent.argument) :
  Agent.BaseAgent_init
    [("state_manager", Agent.TheStateManager); ("stage_name", stage_name)]
  = inl (Agent.unexpected_keyword "stage_name").
Proof. reflexivity. Qed.

(** The context of scenario B: the two values that [execute] requires,
    the others left to their defaults. *)
Definition scenario_b_context : gmap string value :=
  {[ "master_resume" := VStr "Ten years of experience in software engineering";
     "parsed_jd" := VDict {[ "job_title" := AnyStr "Staff Engineer" ]} ]}.

(** C1: the run of scenario B ends before its first evaluation.
    Whatever the steps from the draft on would do (whatever the three
    evaluations would score), [execute] raises [TypeError] where it
    creates the draft writer: no status is returned, and no candidate. *)
Theorem scenario_b_raises_before_the_loop
    (steps_3_to_10 : Agent.BaseAgent -> gmap string value -> exn + results) :
  execute steps_3_to_10 scenario_b_context
  = inl (Agent.unexpected_keyword "stage_name").
Proof. reflexivity. Qed.

(** C4: no run of [execute] gets to evaluate a draft.  Without a master
    resume or a parsed job description in the context it raises
    [KeyError]; with both it raises [TypeError] where it creates the draft
    writer.  The steps from the draft on, the loop among them, are never
    entered: the result does not depend on them. *)
Theorem execute_never_reaches_the_loop
    (steps_3_to_10 : Agent.BaseAgent -> gmap string value -> exn + results)
    (context_data : gmap string value) :
  execute steps_3_to_10 context_data
  = if is_None (_get_context_data context_data "master_resume" VNone) then
      inl (KeyError "Missing required context data: 'master_resume'")
    else if is_None (_get_context_data context_data "parsed_jd" VNone) then
      inl (KeyError "Missing required context data: 'parsed_jd'")
    else inl (Agent.unexpected_keyword "stage_name").
Proof.
  unfold execute.
  destruct (is_None (_get_context_data context_data "master_resume" VNone));
    [reflexivity|].
  destruct (is_None (_get_context_data context_data "parsed_jd" VNone));
    reflexivity.
Qed.

End PolishingRun.

(** * Further properties *)

(** ** Length decisions *)

Section LengthDecisions.
Import Decision.

(** X1: For a positive target, with lengths below 2^63 (where the true
    division cannot overflow), the length score lies in [0, 1]; it is 1
    for a document of the target length, and 0 as soon as the document
    is off by the target length or more. *)
Theorem calculate_length_score_positive_target_shape (actual_length target_length : Z) :
  0 < target_length < 2 ^ 63 ->
  Z.abs actual_length < 2 ^ 63 ->
  (0 <= calculate_length_score actual_length target_length <= 1)%Q
  /\ (actual_length = target_length ->
      (calculate_length_score actual_length target_length == 1)%Q)
  /\ (target_length <= Z.abs (actual_length - target_length) ->
      calculate_length_score actual_length target_length = 0%Q).
Proof.
  intros [Hpos _] _.
  split; [apply calculate_length_score_positive_target, Hpos|].
  unfold calculate_length_score.
  destruct (Z.eqb_spec target_length 0) as [->|_]; [lia|].
  split.
  - intros Heq. subst actual_length. rewrite Z.sub_diag. change (Z.abs 0) with 0.
    unfold py_max.
    assert (H : (1 - inject_Z 0 / inject_Z target_length == 1)%Q).
    { unfold Qdiv. rewrite Qmult_0_l. reflexivity. }
    assert (Hlt : Qltb 0 (1 - inject_Z 0 / inject_Z target_length) = true).
    { apply Qltb_lt. rewrite H. reflexivity. }
    rewrite Hlt. exact H.
  - intros Hoff. unfold py_max.
    assert (Hle : Qltb 0 (1 - inject_Z (Z.abs (actual_length - target_length))
                              / inject_Z target_length) = false).
    { apply Qltb_ge.
      assert (Ht : (0 < inject_Z target_length)%Q)
        by (change 0%Q with (inject_Z 0); rewrite <- Zlt_Qlt; exact Hpos).
      assert (Hq : (1 <= inject_Z (Z.abs (actual_length - target_length))
                         / inject_Z target_length)%Q).
      { apply Qle_shift_div_l; [exact Ht|]. rewrite Qmult_1_l.
        rewrite <- Zle_Qle. exact Hoff. }
      lra. }
    rewrite Hle. reflexivity.
Qed.

Lemma calculate_length_score_positive_target_shape_witness :
  (0 <= calculate_length_score 2500 1000 <= 1)%Q
  /\ (2500 = 1000 -> (calculate_length_score 2500 1000 == 1)%Q)
  /\ (1000 <= Z.abs (2500 - 1000) -> calculate_length_score 2500 1000 = 0%Q).
Proof.
  apply (calculate_length_score_positive_target_shape 2500 1000); lia.
Defined.

End LengthDecisions.

(** ** Change impact *)

Section ChangeImpact.
Import Decision.

(** X3: A change is applied only if it does not lower the quality; whether it
    is applied does not depend on its type; and a change that is applied
    is still applied when its quality gain is higher or its impact lower. *)
Theorem evaluate_change_impact_monotone
    (change_type : string) (impact_score quality_delta : Q) :
  evaluate_change_impact change_type impact_score quality_delta = true ->
  (0 <= quality_delta)%Q
  /\ (forall other_type,
        evaluate_change_impact other_type impact_score quality_delta = true)
  /\ (forall impact_score' quality_delta',
        (impact_score' <= impact_score)%Q -> (quality_delta <= quality_delta')%Q ->
        evaluate_change_impact change_type impact_score' quality_delta' = true).
Proof.
  unfold evaluate_change_impact.
  rewrite orb_true_iff, andb_true_iff, !Qltb_lt, Qleb_le.
  intros H. split; [|split].
  - destruct H as [[_ H]|H]; lra.
  - intros _. rewrite orb_true_iff, andb_true_iff, !Qltb_lt, Qleb_le. exact H.
  - intros i q Hi Hq. rewrite orb_true_iff, andb_true_iff, !Qltb_lt, Qleb_le.
    destruct H as [[H1 H2]|H]; [left; split|right]; lra.
Qed.

Lemma evaluate_change_impact_monotone_witness :
  (0 <= 0.05)%Q
  /\ (forall other_type, evaluate_change_impact other_type 0.2 0.05 = true)
  /\ (forall impact_score' quality_delta',
        (impact_score' <= 0.2)%Q -> (0.05 <= quality_delta')%Q ->
        evaluate_change_impact "removal" impact_score' quality_delta' = true).
Proof.
  apply (evaluate_change_impact_monotone "removal" 0.2%Q 0.05%Q). reflexivity.
Defined.

End ChangeImpact.

(** ** The matches that are selected *)

Section Selection.
Import Decision.

(** In a list in descending order, nothing after the first [n] elements
    scores higher than one of them. *)
Lemma StronglySorted_firstn_skipn {A : Type} (R : A -> A -> Prop) (l : list A) (n : nat) :
  StronglySorted R l ->
  Forall (fun a => Forall (R a) (List.skipn n l)) (List.firstn n l).
Proof.
  intros Hs. revert n. induction Hs as [|x l Hs IH Hx]; intros [|n]; simpl;
    try constructor.
  - apply Forall_drop, Hx.
  - apply IH.
Qed.

(** X4: [select_top_jds] returns [min(n, len(matches))] ids, the ids of
    matches that split the input in two: the selected ones, and the rest,
    none of which scores higher than a selected one. *)
Theorem select_top_jds_selects_the_best (matches : list MatchResult) (n : nat) :
  exists selected rest,
    select_top_jds matches (Z.of_nat n) = List.map jd_id selected
    /\ Permutation (selected ++ rest) matches
    /\ List.length selected = Nat.min n (List.length matches)
    /\ Forall (fun a => Forall (fun b => (match_score b <= match_score a)%Q) rest)
              selected.
Proof.
  set (ranked := sorted Qltb match_score true matches).
  exists (List.firstn n ranked), (List.skipn n ranked).
  assert (Hperm : Permutation ranked matches) by apply sorted_Permutation.
  split; [|split; [|split]].
  - unfold select_top_jds. rewrite py_slice_to_nat. reflexivity.
  - rewrite List.firstn_skipn. exact Hperm.
  - rewrite List.length_firstn, (Permutation_length Hperm). reflexivity.
  - apply StronglySorted_firstn_skipn.
    eapply StronglySorted_weaken;
      [|apply (sorted_StronglySorted Qltb match_score true Qltb_asym Qltb_negtrans)].
    intros x y H. unfold in_order, before in H. apply Qltb_ge in H. exact H.
Qed.

(** X5: The number of ids returned, for any integer [top_n]: [top_n] or all
    of them when [top_n] is not negative, and all but the last [-top_n]
    when it is negative (the slice then counts from the end: nothing is
    raised, and the result is empty only if [-top_n] reaches the number of
    matches). *)
Theorem select_top_jds_length (matches : list MatchResult) (top_n : Z) :
  Z.of_nat (List.length (select_top_jds matches top_n))
  = if 0 <=? top_n then Z.min top_n (Z.of_nat (List.length matches))
    else Z.max 0 (Z.of_nat (List.length matches) + top_n).
Proof.
  unfold select_top_jds, py_slice_to.
  rewrite length_map.
  pose proof (Permutation_length (sorted_Permutation Qltb match_score true matches))
    as Hlen.
  destruct (0 <=? top_n) eqn:E; rewrite List.length_firstn, Hlen; lia.
Qed.

End Selection.

(** ** Clamping *)

Section Clamping.
Import Decision Evaluator.

(** The evaluation made of a result dict, but for the score. *)
Definition stored (score : Q) (d : EvalDict) : DocumentEvaluation :=
  {| ev_score := score;
     ev_has_critical_issues := get (d_has_critical_issues d) false;
     ev_has_false_facts := get (d_has_false_facts d) false;
     ev_issue_count := get (d_issue_count d) 0;
     ev_quality_notes := get (d_quality_notes d) EmptyString;
     ev_metadata := get (d_metadata d) ∅ |}.

(** X6: What [format_output] makes of a result dict, by the value under
    ["score"] (0.0 when the key is missing): a number below 0 is stored
    as 0, a number above 1 as 1, any other number as it is; minus
    infinity is stored as 0, plus infinity and [nan] as 1; a value that
    has no order with a float raises [TypeError].  Every other value is
    stored as the dict has it. *)
Theorem format_output_score (d : EvalDict) :
  match get (d_score d) (Number 0%Q) with
  | Number q =>
      format_output (RawDict d)
      = inr (Evaluation
               (stored (if Qltb q 0 then 0%Q else if Qltb 1 q then 1%Q else q) d))
  | Infinity negative =>
      format_output (RawDict d)
      = inr (Evaluation (stored (if negative then 0%Q else 1%Q) d))
  | NaN => format_output (RawDict d) = inr (Evaluation (stored 1%Q d))
  | Unordered => exists msg, format_output (RawDict d) = inl (TypeError msg)
  end.
Proof.
  unfold format_output, stored.
  destruct (get (d_score d) (Number 0%Q)) as [s|negative| |]; simpl;
    [|reflexivity|reflexivity|eauto].
  destruct (Qltb s 0) eqn:E0.
  - assert (H0 : Qleb 0 s = false) by (apply Qleb_gt, Qltb_lt, E0).
    rewrite H0. simpl.
    unfold py_max, py_min.
    apply Qltb_lt in E0.
    assert (H1 : Qltb s 1 = true) by (apply Qltb_lt; lra).
    rewrite H1. assert (H2 : Qltb 0 s = false) by (apply Qltb_ge; lra).
    rewrite H2. reflexivity.
  - assert (H0 : Qleb 0 s = true) by (apply Qleb_le, Qltb_ge, E0).
    rewrite H0. destruct (Qltb 1 s) eqn:E1.
    + assert (H1 : Qleb s 1 = false) by (apply Qleb_gt, Qltb_lt, E1).
      rewrite H1. simpl.
      unfold py_max, py_min.
      assert (H2 : Qltb s 1 = false) by (apply Qltb_ge; apply Qltb_lt in E1; lra).
      rewrite H2. reflexivity.
    + assert (H1 : Qleb s 1 = true) by (apply Qleb_le, Qltb_ge, E1).
      rewrite H1. reflexivity.
Qed.

End Clamping.

(** ** The pool: the semaphore *)

Section PoolMore.
Import Pool.
Context {Input Output : Type}.

Local Abbreviation BaseAgent := (Pool.BaseAgent Input Output).
Local Abbreviation task := (Pool.task Input Output).
Local Abbreviation loop_state := (Pool.loop_state Input Output).

(** *** The semaphore *)

Lemma event_loop_within_limit pool (fuel : nat) :
  forall (schedule : list nat) (st : loop_state),
    within_limit pool (running st) ->
    within_limit pool (running (event_loop pool schedule fuel st)).
Proof.
  induction fuel as [|fuel IH]; intros schedule st Hst; [exact Hst|].
  simpl.
  pose proof (acquire_within_limit pool (waiting st) (running st) Hst) as Ha.
  destruct (acquire pool (waiting st) (running st)) as [w r]. simpl in Ha.
  apply IH. apply complete_within_limit. exact Ha.
Qed.

(** X9: With a pool of size [n], after any number of completions, and also
    right after the waiting coroutines have been let in, at most [n]
    coroutines are running. *)
Theorem in_flight_within_pool_size
    (n : Z) (pool : AgentPool) (schedule : list nat) (tasks : list task)
    (completions : nat) :
  AgentPool_init (Some n) = inr pool ->
  let st := event_loop pool schedule completions
              {| waiting := zip (List.seq 0 (List.length tasks)) tasks;
                 running := []; finished := [] |} in
  Z.of_nat (List.length (running st)) <= n
  /\ Z.of_nat (List.length (snd (acquire pool (waiting st) (running st)))) <= n.
Proof.
  intros Hinit st.
  pose proof (AgentPool_init_ok _ _ Hinit) as Hok.
  assert (Hsize : _pool_size pool = Some n).
  { unfold AgentPool_init in Hinit. destruct (n <? 1); inversion Hinit. reflexivity. }
  assert (Hst : within_limit pool (running st)).
  { apply event_loop_within_limit. unfold within_limit, pool_ok in *.
    rewrite Hsize in *. simpl. lia. }
  pose proof (acquire_within_limit pool (waiting st) (running st) Hst) as Ha.
  unfold within_limit in *. rewrite Hsize in *. split; assumption.
Qed.

(** With one slot, the waiting coroutines are finished one by one, in
    order. *)
Lemma event_loop_sequential pool (fuel : nat) :
  _pool_size pool = Some 1 ->
  forall (schedule : list nat) (w : list (nat * task))
         (log : list (nat * (nat * Pool.result Output))),
    (List.length w <= fuel)%nat ->
    finished (event_loop pool schedule fuel
                {| waiting := w; running := []; finished := log |})
    = (log ++ List.map logged w)%list.
Proof.
  intros Hsize. induction fuel as [|fuel IH]; intros schedule w log Hfuel.
  - destruct w; [|simpl in Hfuel; lia]. simpl. rewrite app_nil_r. reflexivity.
  - destruct w as [|[position t] w].
    + rewrite <- (IH (List.tl schedule) [] log) by (simpl; lia). reflexivity.
    + cbn [event_loop waiting running finished acquire].
      assert (Hslot0 : has_slot pool ([] : list (nat * task)) = true)
        by (unfold has_slot; rewrite Hsize; reflexivity).
      rewrite Hslot0. cbn [app].
      assert (Hacq : acquire pool w [(position, t)] = (w, [(position, t)])).
      { destruct w; [reflexivity|]. simpl. unfold has_slot. rewrite Hsize. reflexivity. }
      rewrite Hacq. unfold complete. cbn [running List.length].
      rewrite Nat.mod_1_r. cbn [lookup list_lookup waiting finished delete list_delete].
      rewrite IH by (simpl in Hfuel; lia).
      rewrite <- app_assoc. reflexivity.
Qed.

(** X10: A pool of size 1 is sequential: the coroutines finish in the order of
    the inputs, whatever the schedule. *)
Theorem pool_of_one_is_sequential
    (pool : AgentPool) (schedule : list nat)
    (agents : list BaseAgent) (inputs : list Input) :
  AgentPool_init (Some 1) = inr pool ->
  List.map snd (completion_log pool schedule (enumerate_zip 0 agents inputs))
  = List.map finish (enumerate_zip 0 agents inputs).
Proof.
  intros Hinit. injection Hinit as <-.
  unfold completion_log. rewrite event_loop_sequential;
    [|reflexivity|rewrite length_zip_with, length_seq; lia].
  simpl. generalize (enumerate_zip 0 agents inputs). intros tasks.
  generalize 0%nat. induction tasks as [|t tasks IH]; intros start; [reflexivity|].
  simpl. f_equal. apply IH.
Qed.

End PoolMore.

Section PoolMoreExamples.
Import Pool.

Lemma in_flight_within_pool_size_witness :
  let st := event_loop pool_of_two a_schedule 2
              {| waiting := zip (List.seq 0 5) (enumerate_zip 0 five_agents five_inputs);
                 running := []; finished := [] |} in
  Z.of_nat (List.length (running st)) <= 2
  /\ Z.of_nat (List.length (snd (acquire pool_of_two (waiting st) (running st)))) <= 2.
Proof.
  exact (in_flight_within_pool_size 2 pool_of_two a_schedule
           (enumerate_zip 0 five_agents five_inputs) 2 eq_refl).
Defined.

Lemma pool_of_one_is_sequential_witness :
  List.map snd (completion_log {| _pool_size := Some 1 |} a_schedule
                  (enumerate_zip 0 five_agents five_inputs))
  = List.map finish (enumerate_zip 0 five_agents five_inputs).
Proof.
  exact (pool_of_one_is_sequential {| _pool_size := Some 1 |} a_schedule
           five_agents five_inputs eq_refl).
Defined.

End PoolMoreExamples.

(** ** Stored versions *)

Section StoredVersions.
Import State Version.

Lemma load_version_saved sm document_id version_num content metadata now :
  load_version (save_version sm document_id version_num content metadata now)
               document_id version_num
  = inr {| version := version_num; State.content := content;
           State.metadata := metadata; timestamp := isoformat_Z now |}.
Proof.
  unfold load_version, save_version. simpl.
  rewrite lookup_insert_eq. simpl. rewrite lookup_insert_eq. reflexivity.
Qed.

Lemma load_version_other sm document_id version_num content metadata now other n :
  (other, n) <> (document_id, version_num) ->
  load_version (save_version sm document_id version_num content metadata now) other n
  = load_version sm other n.
Proof.
  intros Hne. unfold load_version, save_version. simpl.
  destruct (decide (document_id = other)) as [<-|Hdoc].
  - rewrite lookup_insert_eq. simpl.
    rewrite lookup_insert_ne by congruence.
    destruct (versions sm !! document_id); simpl; [reflexivity|].
    rewrite lookup_empty. reflexivity.
  - rewrite lookup_insert_ne by assumption. reflexivity.
Qed.

Lemma load_version_Some sm document_id n data :
  load_version sm document_id n = inr data
  <-> exists version_dir,
        versions sm !! document_id = Some version_dir /\ version_dir !! n = Some data.
Proof.
  unfold load_version. destruct (versions sm !! document_id) as [dir|]; simpl.
  - destruct (dir !! n) eqn:E; split.
    + intros H. injection H as <-. eauto.
    + intros [d [Hd Hn]]. injection Hd as <-. congruence.
    + discriminate.
    + intros [d [Hd Hn]]. injection Hd as <-. congruence.
  - split; [discriminate|]. intros [d [Hd _]]. discriminate.
Qed.

Lemma get_latest_version_cases (sm : StateManager) (document_id : string) :
  match get_latest_version sm document_id with
  | inr (latest_num, latest_data) =>
      load_version sm document_id latest_num = inr latest_data
      /\ forall n data, load_version sm document_id n = inr data -> n <= latest_num
  | inl e =>
      (exists msg, e = FileNotFoundError msg)
      /\ forall n data, load_version sm document_id n <> inr data
  end.
Proof.
  unfold get_latest_version.
  destruct (versions sm !! document_id) as [dir|] eqn:Hdir.
  - fold (max_key dir). destruct (max_key dir) as [m|] eqn:Hmax.
    + apply max_key_spec in Hmax as [[data Hdata] Hub].
      assert (Hload : load_version sm document_id m = inr data).
      { apply load_version_Some. eauto. }
      rewrite Hload. split; [exact Hload|].
      intros n data' Hn. apply load_version_Some in Hn as [d [Hd Hn]].
      assert (d = dir) by congruence. subst d. apply Hub. eauto.
    + split; [eauto|]. intros n data Hn.
      apply load_version_Some in Hn as [d [Hd Hn]].
      assert (d = dir) by congruence. subst d.
      apply max_of_None in Hmax.
      assert (Hin : In n (List.map fst (map_to_list dir))) by (apply In_keys; eauto).
      rewrite Hmax in Hin. destruct Hin.
  - split; [eauto|]. intros n data Hn.
    apply load_version_Some in Hn as [d [Hd _]]. congruence.
Qed.

(** X12: [get_latest_version] returns the stored version with the greatest
    number, and raises [FileNotFoundError] exactly when the document has
    no stored version. *)
Theorem get_latest_version_greatest (sm : StateManager) (document_id : string) :
  match get_latest_version sm document_id with
  | inr (latest_num, latest_data) =>
      load_version sm document_id latest_num = inr latest_data
      /\ forall n data, load_version sm document_id n = inr data -> n <= latest_num
  | inl e =>
      (exists msg, e = FileNotFoundError msg)
      /\ forall n data, load_version sm document_id n <> inr data
  end.
Proof. apply get_latest_version_cases. Qed.

(** A [restore] request. *)
Definition restore_input (document_id : string) (version_num : Z) : input :=
  {| action := Some "restore"; document_id := Some document_id;
     content := None; version_num := Some version_num; metadata := None |}.

Lemma next_version_fresh sm document_id n data :
  load_version sm document_id n = inr data -> n < next_version sm document_id.
Proof.
  intros Hn. unfold next_version.
  pose proof (get_latest_version_cases sm document_id) as H.
  destruct (get_latest_version sm document_id) as [e|[m d]].
  - destruct H as [_ H]. destruct (H n data Hn).
  - destruct H as [_ H]. specialize (H n data Hn). lia.
Qed.

(** X13: What [store] writes, [restore] reads back under the number [store]
    returned, without changing anything; and [store] takes a number not in
    use, so that every version stored before is still there. *)
Theorem store_then_restore
    (sm : StateManager) (document_id content : string) (metadata : dict)
    (now later : datetime) :
  exists out sm',
    execute sm (store_input document_id content metadata) now = inr (out, sm')
    /\ execute sm' (restore_input document_id (out_version_num out)) later
       = inr ({| out_version_num := out_version_num out; out_content := content;
                 out_metadata := metadata;
                 out_timestamp := Some (isoformat_Z now) |}, sm')
    /\ (forall data, load_version sm document_id (out_version_num out) <> inr data)
    /\ (forall other n data,
          load_version sm other n = inr data -> load_version sm' other n = inr data).
Proof.
  destruct (execute_store sm document_id content metadata now) as [out [Hexec Hnum]].
  eexists out, _. split; [exact Hexec|].
  pose proof (load_version_saved sm document_id (next_version sm document_id)
                content metadata now) as Hload.
  split; [|split].
  - unfold execute, restore_input. simpl. rewrite Hnum, Hload. reflexivity.
  - intros data Hn. apply next_version_fresh in Hn. lia.
  - intros other n data Hn. rewrite load_version_other; [exact Hn|].
    intros Heq. injection Heq as -> ->.
    apply next_version_fresh in Hn. lia.
Qed.

End StoredVersions.

(** ** Checkpoints *)

Section Checkpoints.
Import State.

(** File names compare byte by byte. *)
Lemma String_compare_refl (s : string) : String.compare s s = Eq.
Proof.
  induction s as [|a s IH]; [reflexivity|]. simpl.
  unfold Ascii.compare. rewrite N.compare_refl. exact IH.
Qed.

Lemma String_compare_not_Lt (a b c : string) :
  String.compare a b <> Lt -> String.compare b c <> Lt -> String.compare a c <> Lt.
Proof.
  revert b c. induction a as [|x a IH]; intros [|y b] [|z c]; simpl; try congruence.
  unfold Ascii.compare.
  destruct (N.compare_spec (N_of_ascii x) (N_of_ascii y)) as [Hxy|Hxy|Hxy];
    destruct (N.compare_spec (N_of_ascii y) (N_of_ascii z)) as [Hyz|Hyz|Hyz];
    try congruence;
    destruct (N.compare_spec (N_of_ascii x) (N_of_ascii z)) as [Hxz|Hxz|Hxz];
    try congruence; try lia.
  apply IH.
Qed.

Lemma String_ltb_asym (a b : string) : String.ltb a b = true -> String.ltb b a = false.
Proof.
  unfold String.ltb. rewrite (String.compare_antisym b a).
  destruct (String.compare a b); simpl; congruence.
Qed.

Lemma String_ltb_negtrans (a b c : string) :
  String.ltb a b = false -> String.ltb b c = false -> String.ltb a c = false.
Proof.
  unfold String.ltb. intros Hab Hbc.
  pose proof (String_compare_not_Lt a b c) as H.
  destruct (String.compare a b); try discriminate;
    destruct (String.compare b c); try discriminate;
    destruct (String.compare a c); try reflexivity;
    exfalso; apply H; congruence.
Qed.

Lemma String_ltb_total (a b : string) :
  String.ltb a b = false -> String.ltb b a = false -> a = b.
Proof.
  unfold String.ltb. rewrite (String.compare_antisym b a).
  destruct (String.compare a b) eqn:E; simpl; try discriminate.
  intros _ _. apply String.compare_eq_iff, E.
Qed.

(** The first listed checkpoint has the greatest name. *)
Lemma list_checkpoints_head sm latest rest :
  list_checkpoints sm = latest :: rest ->
  is_Some (checkpoints sm !! latest)
  /\ forall other, is_Some (checkpoints sm !! other) -> String.ltb latest other = false.
Proof.
  unfold list_checkpoints. intros Hlist.
  set (names := List.map fst (map_to_list (checkpoints sm))) in *.
  assert (Hnames : forall name, In name names <-> is_Some (checkpoints sm !! name)).
  { intros name. subst names. rewrite in_map_iff. split.
    - intros [[k v] [<- H]]. apply list_elem_of_In, elem_of_map_to_list in H. eauto.
    - intros [v H]. exists (name, v). split; [reflexivity|].
      apply list_elem_of_In, elem_of_map_to_list, H. }
  pose proof (sorted_Permutation String.ltb id true names) as Hp.
  pose proof (sorted_StronglySorted String.ltb id true
                String_ltb_asym String_ltb_negtrans names) as Hs.
  rewrite Hlist in Hp, Hs. split.
  - apply Hnames. eapply Permutation_in; [exact Hp|]. left. reflexivity.
  - intros other Hother. apply Hnames in Hother.
    apply Permutation_sym in Hp. eapply Permutation_in in Hother; [|exact Hp].
    destruct Hother as [<-|Hin].
    + unfold String.ltb. rewrite String_compare_refl. reflexivity.
    + apply StronglySorted_inv in Hs as [_ Hall].
      rewrite List.Forall_forall in Hall. apply (Hall other Hin).
Qed.

Lemma list_checkpoints_nil sm : list_checkpoints sm = [] -> checkpoints sm = ∅.
Proof.
  unfold list_checkpoints. intros Hlist.
  pose proof (sorted_Permutation String.ltb id true
                (List.map fst (map_to_list (checkpoints sm)))) as Hp.
  rewrite Hlist in Hp. apply Permutation_nil in Hp.
  apply map_eq_nil in Hp. apply map_to_list_empty_iff, Hp.
Qed.

(** X14: [load_latest_checkpoint] returns the content of the checkpoint file
    whose name is the greatest, and [None] exactly when there is no
    checkpoint file. *)
Theorem load_latest_checkpoint_greatest_name (sm : StateManager) :
  match load_latest_checkpoint sm with
  | Some (stage_name, checkpoint_data) =>
      exists name,
        checkpoints sm !! name = Some checkpoint_data
        /\ (forall other, is_Some (checkpoints sm !! other) ->
                          String.ltb name other = false)
        /\ (stage_name = "unknown"
            \/ checkpoint_data !! "stage" = Some (AnyStr stage_name))
  | None => checkpoints sm = ∅
  end.
Proof.
  unfold load_latest_checkpoint.
  destruct (list_checkpoints sm) as [|latest rest] eqn:Hlist.
  - apply list_checkpoints_nil, Hlist.
  - apply list_checkpoints_head in Hlist as [[data Hdata] Hgreatest].
    rewrite Hdata. exists latest. split; [exact Hdata|]. split; [exact Hgreatest|].
    destruct (data !! "stage") as [[| | | |s]|]; auto.
Qed.

(** X15: A checkpoint whose file name is the greatest is the one loaded: with
    the stage it was saved for, also when the payload had a [stage] key of
    its own, and with the rest of the payload. *)
Theorem save_checkpoint_then_load_latest
    (sm : StateManager) (stage : string) (state_data : dict) (now : datetime) :
  (forall other, is_Some (checkpoints sm !! other) ->
     String.ltb (fst (save_checkpoint sm stage state_data now)) other = false) ->
  exists checkpoint_data,
    load_latest_checkpoint (snd (save_checkpoint sm stage state_data now))
    = Some (stage, checkpoint_data)
    /\ checkpoint_data !! "stage" = Some (AnyStr stage)
    /\ forall k, k <> "stage" -> k <> "checkpoint_timestamp" ->
                 checkpoint_data !! k = state_data !! k.
Proof.
  intros Hgreatest.
  set (name := fst (save_checkpoint sm stage state_data now)) in *.
  set (sm' := snd (save_checkpoint sm stage state_data now)).
  set (written := <["checkpoint_timestamp" := AnyStr (isoformat_Z now)]>
                    (<["stage" := AnyStr stage]> state_data)).
  assert (Hwritten : checkpoints sm' !! name = Some written)
    by apply lookup_insert_eq.
  assert (Hstage : written !! "stage" = Some (AnyStr stage)).
  { subst written. rewrite lookup_insert_ne by discriminate. apply lookup_insert_eq. }
  unfold load_latest_checkpoint.
  destruct (list_checkpoints sm') as [|latest rest] eqn:Hlist.
  - apply list_checkpoints_nil in Hlist.
    rewrite Hlist in Hwritten. rewrite lookup_empty in Hwritten. discriminate.
  - apply list_checkpoints_head in Hlist as [Hl Hhead].
    assert (Hname : latest = name).
    { apply String_ltb_total.
      - apply Hhead. eauto.
      - destruct (decide (name = latest)) as [<-|Hne].
        + unfold String.ltb. rewrite String_compare_refl. reflexivity.
        + apply Hgreatest.
          subst sm'. simpl in Hl. fold name in Hl.
          rewrite lookup_insert_ne in Hl by assumption. exact Hl. }
    subst latest. rewrite Hwritten. rewrite Hstage.
    exists written. split; [reflexivity|]. split; [exact Hstage|].
    intros k Hk1 Hk2. subst written. rewrite !lookup_insert_ne by congruence.
    reflexivity.
Qed.

Lemma save_checkpoint_then_load_latest_witness :
  exists checkpoint_data,
    load_latest_checkpoint
      (snd (save_checkpoint empty_run "drafting"
              (<["stage" := AnyStr "polishing"]> ∅) midnight))
    = Some ("drafting", checkpoint_data)
    /\ checkpoint_data !! "stage" = Some (AnyStr "drafting")
    /\ forall k, k <> "stage" -> k <> "checkpoint_timestamp" ->
                 checkpoint_data !! k
                 = (<["stage" := AnyStr "polishing"]> ∅ : dict) !! k.
Proof.
  apply (save_checkpoint_then_load_latest empty_run "drafting"
           (<["stage" := AnyStr "polishing"]> ∅) midnight).
  intros other [data Hother]. simpl in Hother. rewrite lookup_empty in Hother.
  discriminate.
Defined.

(** X16: Two checkpoints of one stage written within the same second share a
    file: the second replaces the first. *)
Theorem save_checkpoint_same_second
    (sm : StateManager) (stage : string) (first second : dict) (now : datetime) :
  snd (save_checkpoint (snd (save_checkpoint sm stage first now)) stage second now)
  = snd (save_checkpoint sm stage second now).
Proof.
  unfold save_checkpoint. simpl. f_equal. apply insert_insert_eq.
Qed.

End Checkpoints.

(** ** The issues handed to the refinement, and the end of the merge *)

Section ConfidenceMore.
Import Merger.

(** X18: The refinement is given an empty list of issues exactly when every
    validator passed. *)
Theorem _extract_validation_issues_empty
    (validation_results : list (string * ValidationResult)) :
  _extract_validation_issues validation_results = []
  <-> forall name result, In (name, result) validation_results -> passed result = true.
Proof.
  unfold _extract_validation_issues.
  induction validation_results as [|[name result] rest IH]; simpl.
  - split; [intros _ n r []|reflexivity].
  - destruct (passed result) eqn:Hp; simpl.
    + rewrite IH. split.
      * intros H n r [Heq|Hin]; [injection Heq as <- <-; exact Hp|eauto].
      * intros H n r Hin. eauto.
    + split; [discriminate|]. intros H.
      specialize (H name result (or_introl eq_refl)). congruence.
Qed.

End ConfidenceMore.

Section MergeEnd.
Import Merger.
Variable validate_r1_principles validate_r2_examples : string -> ValidationResult.
Variable validate_section_completeness validate_actionability : string -> ValidationResult.
Variable execute_refinement : string -> list string -> exn + string.
Variable engine : MergerEngine.
Variable _execute_initial_merge : string -> string -> string -> exn + string.
Variable header : Q -> string.

Local Abbreviation run_validators :=
  (_run_validators validate_r1_principles validate_r2_examples
     validate_section_completeness validate_actionability).

(** The header cannot be built from what the validators return. *)
Lemma build_metadata_header_raises (text merged_guidelines : string) :
  build_metadata_header text (run_validators merged_guidelines)
  = inl (AttributeError "'ValidationResult' object has no attribute 'get'").
Proof. reflexivity. Qed.

(** X19: [merge] never returns a [MergeResult]: every call ends with an
    exception.  An empty source or an unknown document type raises
    [ValueError]; the calls to the model may raise; and a merge that gets
    through its loop raises [AttributeError] at the end, where the
    metadata header is built from the validation results themselves,
    which have no [get].  No path through the method returns, so this
    holds whatever the validators score. *)
Theorem merge_never_returns (r1_content r2_content document_type : string) :
  exists e,
    merge run_validators execute_refinement engine _execute_initial_merge header
          r1_content r2_content document_type = inl e.
Proof.
  unfold merge.
  destruct (String.eqb r1_content EmptyString || String.eqb r2_content EmptyString);
    [eauto|].
  destruct (negb (String.eqb document_type "resume"
                  || String.eqb document_type "cover_letter")); [eauto|].
  destruct (_execute_initial_merge r1_content r2_content document_type)
    as [e|initial_guidelines]; [eauto|].
  destruct (merge_loop _ _ _ _ _) as [e|st]; [eauto|].
  rewrite build_metadata_header_raises. eauto.
Qed.

End MergeEnd.

(** ** Creating an agent *)

Section AgentCreation.
Import Agent.

Lemma find_none {A : Type} (p : A -> bool) (l : list A) :
  List.find p l = None <-> forall x, In x l -> p x = false.
Proof.
  induction l as [|y l IH]; simpl.
  - split; [intros _ x []|reflexivity].
  - destruct (p y) eqn:Hy.
    + split; [discriminate|]. intros H. rewrite (H y (or_introl eq_refl)) in Hy.
      discriminate Hy.
    + rewrite IH. split.
      * intros H x [<-|Hx]; [exact Hy|exact (H x Hx)].
      * intros H x Hx. apply H. right. exact Hx.
Qed.

Lemma is_parameter (name : string) :
  List.existsb (String.eqb name) parameters = true
  <-> name = "state_manager" \/ name = "stage".
Proof.
  unfold parameters. cbn [List.existsb]. rewrite !orb_true_iff, !String.eqb_eq.
  split; [intros [H|[H|H]]; [auto|auto|discriminate H]|intros [H|H]; auto].
Qed.

(** X21: The constructor of an agent returns an agent exactly when every
    keyword of the call names one of its two parameters, [state_manager]
    and [stage], and both are given; the agent holds the two values.  A
    call with the keyword [stage_name], the one that the writing and the
    fact-checking orchestra use, raises [TypeError]. *)
Theorem BaseAgent_init_binds (keywords : list (string * argument))
    (the_state_manager the_stage : argument) :
  (BaseAgent_init keywords
   = inr {| state_manager := the_state_manager; stage := the_stage |}
   <-> (forall name value, In (name, value) keywords ->
          name = "state_manager" \/ name = "stage")
       /\ keyword "state_manager" keywords = Some the_state_manager
       /\ keyword "stage" keywords = Some the_stage)
  /\ ((exists value, In ("stage_name", value) keywords) ->
      exists msg, BaseAgent_init keywords = inl (TypeError msg)).
Proof.
  unfold BaseAgent_init. split.
  - destruct (List.find _ keywords) as [[name value]|] eqn:Hfind.
    + split; [discriminate|]. intros [Hall _]. exfalso.
      apply find_some in Hfind as [Hin Hp]. simpl in Hp.
      apply negb_true_iff in Hp.
      destruct (Hall name value Hin) as [->| ->]; discriminate Hp.
    + assert (Hall : forall name value, In (name, value) keywords ->
                       name = "state_manager" \/ name = "stage").
      { intros name value Hin. apply is_parameter.
        pose proof (proj1 (find_none _ _) Hfind (name, value) Hin) as Hp.
        simpl in Hp. apply negb_false_iff in Hp. exact Hp. }
      destruct (keyword "state_manager" keywords) as [a|],
               (keyword "stage" keywords) as [b|]; split;
        try discriminate; try (intros (_ & H1 & H2); discriminate).
      * intros H. injection H as -> ->. auto.
      * intros (_ & H1 & H2). injection H1 as ->. injection H2 as ->. reflexivity.
  - intros [value Hin].
    destruct (List.find _ keywords) as [[name v]|] eqn:Hfind.
    + unfold unexpected_keyword. eauto.
    + exfalso.
      pose proof (proj1 (find_none _ _) Hfind ("stage_name", value) Hin) as Hp.
      discriminate Hp.
Qed.

End AgentCreation.

(** ** The fact-checking loop *)

Section FactCheckingRun.
Import Orchestra FactChecking.

Variable rest_of_pass : Agent.BaseAgent -> value -> loop_state -> control loop_state.
Variable final_check : Agent.BaseAgent -> value -> loop_state -> exn + loop_state.

(** The first pass of the loop raises where it creates the fact checker. *)
Lemma loop_raises (max_iterations : Z) (master_resume : value) (fuel : nat)
    (st : loop_state) :
  iteration st < max_iterations ->
  loop rest_of_pass max_iterations master_resume (S fuel) st
  = inl (Agent.unexpected_keyword "stage_name").
Proof.
  intros H. cbn [loop]. apply Z.ltb_lt in H. rewrite H.
  unfold loop_body. rewrite stage_name_is_refused. reflexivity.
Qed.

(** X25: [FactCheckingLoopOrchestra.execute] never returns.  Without a
    draft or a master resume in the context it raises [KeyError]; with
    both it raises [TypeError] where it first creates a fact checker: in
    the first pass of the loop, or after the loop when the limit allows
    no pass. *)
Theorem fact_checking_never_returns
    (context_data : gmap string value) (max_iterations : Z) :
  execute rest_of_pass final_check context_data max_iterations
  = if is_None (_get_context_data context_data "draft" VNone) then
      inl (KeyError "Missing required context data: 'draft'")
    else if is_None (_get_context_data context_data "master_resume" VNone) then
      inl (KeyError "Missing required context data: 'master_resume'")
    else inl (Agent.unexpected_keyword "stage_name").
Proof.
  unfold execute.
  destruct (is_None (_get_context_data context_data "draft" VNone)); [reflexivity|].
  destruct (is_None (_get_context_data context_data "master_resume" VNone));
    [reflexivity|].
  destruct (Z.to_nat max_iterations) as [|fuel] eqn:Hfuel.
  - cbn [loop iteration].
    assert (H : (max_iterations <=? 0) = true) by (apply Z.leb_le; lia).
    rewrite H, stage_name_is_refused. reflexivity.
  - rewrite loop_raises by (simpl; lia). reflexivity.
Qed.

End FactCheckingRun.

(** ** Artifacts *)

Section ArtifactFiles.
Import Artifacts.

(** The content a format takes: a dict or a list for [json], a string for
    the others. *)
Definition fits (format : string) (c : content) : bool :=
  if String.eqb format "json" then
    match c with Dict _ | PyList _ => true | _ => false end
  else
    match c with Str _ => true | _ => false end.

Definition supported (format : string) : bool :=
  List.existsb (String.eqb format) supported_formats.

(** Reading in text mode leaves no carriage return, and changes nothing
    else. *)
Definition carriage_return : ascii := "013"%char.

Lemma universal_newlines_spec (n : nat) :
  forall s : string,
    (String.length s <= n)%nat ->
    ~ In carriage_return (list_ascii_of_string (universal_newlines s))
    /\ (~ In carriage_return (list_ascii_of_string s) -> universal_newlines s = s).
Proof.
  induction n as [|n IH]; intros s Hlen.
  - destruct s; [|simpl in Hlen; lia]. simpl. split; [intros []|reflexivity].
  - destruct s as [|c s']; [simpl; split; [intros []|reflexivity]|].
    simpl in Hlen. cbn [universal_newlines].
    destruct (Ascii.eqb_spec c "013") as [->|Hc].
    + split.
      * destruct s' as [|c' s''].
        -- simpl. intros [H|[]]. discriminate H.
        -- destruct (Ascii.eqb c' "010").
           ++ cbn [list_ascii_of_string]. intros [H|H]; [discriminate H|].
              apply (IH s''); [simpl in Hlen; lia|exact H].
           ++ cbn [list_ascii_of_string]. intros [H|H]; [discriminate H|].
              apply (IH (String c' s'')); [lia|exact H].
      * intros H. exfalso. apply H. left. reflexivity.
    + destruct (IH s') as [IH1 IH2]; [lia|]. split.
      * cbn [list_ascii_of_string]. intros [H|H]; [unfold carriage_return in H; congruence|exact (IH1 H)].
      * cbn [list_ascii_of_string]. intros H. f_equal. apply IH2.
        intros Hin. apply H. right. exact Hin.
Qed.

(** What [load_artifact] gives back for content that was saved. *)
Definition loaded (c : content) : content :=
  match c with
  | Str s => Str (universal_newlines s)
  | _ => c
  end.

(** X28: An artifact saved with content that fits its format is loaded
    back, and no other file changes.  A dict or a list comes back as it
    was saved.  A text comes back with each ["\r\n"] and each lone
    ["\r"] turned into ["\n"]: as it was saved exactly when it holds no
    carriage return. *)
Theorem load_artifact_save_artifact
    (sm : StateManager) (stage artifact_name format : string) (c : content) :
  supported format = true ->
  fits format c = true ->
  let (saved, sm') := save_artifact sm stage artifact_name c format in
  saved = inr (artifact_path stage artifact_name format)
  /\ load_artifact sm' stage artifact_name format = inr (loaded c)
  /\ (loaded c = c
      <-> forall s, c = Str s -> ~ In carriage_return (list_ascii_of_string s))
  /\ (forall path, path <> artifact_path stage artifact_name format ->
        json_files sm' !! path = json_files sm !! path
        /\ text_files sm' !! path = text_files sm !! path).
Proof.
  unfold supported, fits, save_artifact, load_artifact. intros Hsup Hfits.
  rewrite Hsup. cbn [negb].
  assert (Hloaded : loaded c = c
            <-> forall s, c = Str s -> ~ In carriage_return (list_ascii_of_string s)).
  { destruct c as [s|d|l|]; simpl; try (split; [intros _ s H; discriminate H|reflexivity]).
    split.
    - intros H s' Hs. injection Hs as <-. injection H as H. rewrite <- H.
      apply (universal_newlines_spec (String.length s) s). lia.
    - intros H. f_equal.
      apply (universal_newlines_spec (String.length s) s); [lia|]. apply H. reflexivity. }
  destruct (String.eqb format "json") eqn:Ejson.
  - destruct c as [s|d|l|]; try discriminate Hfits;
      (split; [reflexivity|]); cbn [json_files text_files];
      rewrite lookup_insert_eq; (split; [reflexivity|]); (split; [exact Hloaded|]);
      intros path Hne; rewrite lookup_insert_ne by congruence; split; reflexivity.
  - destruct c as [s|d|l|]; try discriminate Hfits.
    split; [reflexivity|]. cbn [json_files text_files].
    rewrite lookup_insert_eq. split; [reflexivity|]. split; [exact Hloaded|].
    intros path Hne. rewrite lookup_insert_ne by congruence. split; reflexivity.
Qed.

Lemma load_artifact_save_artifact_witness :
  let (saved, sm') :=
    save_artifact {| json_files := ∅; text_files := ∅ |} "draft_writing" "draft"
                  (Str "Dear hiring manager") "md" in
  saved = inr (artifact_path "draft_writing" "draft" "md")
  /\ load_artifact sm' "draft_writing" "draft" "md"
     = inr (loaded (Str "Dear hiring manager"))
  /\ (loaded (Str "Dear hiring manager") = Str "Dear hiring manager"
      <-> forall s, Str "Dear hiring manager" = Str s ->
                    ~ In carriage_return (list_ascii_of_string s))
  /\ (forall path, path <> artifact_path "draft_writing" "draft" "md" ->
        json_files sm' !! path = (∅ : gmap string (option content)) !! path
        /\ text_files sm' !! path = (∅ : gmap string string) !! path).
Proof.
  apply (load_artifact_save_artifact {| json_files := ∅; text_files := ∅ |}
           "draft_writing" "draft" "md" (Str "Dear hiring manager"));
    reflexivity.
Defined.

(** A draft written with Windows line ends does not come back as saved. *)
Lemma carriage_returns_are_lost :
  let (saved, sm') :=
    save_artifact {| json_files := ∅; text_files := ∅ |} "draft_writing" "draft"
                  (Str (String "a" (String "013" (String "010" "b")))) "txt" in
  load_artifact sm' "draft_writing" "draft" "txt"
  = inr (Str (String "a" (String "010" "b"))).
Proof. reflexivity. Qed.

(** X29: What [save_artifact] does with a call it refuses.  An unsupported
    format raises [ValueError] and touches no file.  Content that does not
    fit a supported format raises [IOError], not [ValueError], and leaves
    an empty file at the path: an artifact saved there before is gone, a
    [json] artifact can no longer be loaded, and a text artifact loads as
    the empty string. *)
Theorem save_artifact_refused
    (sm : StateManager) (stage artifact_name format : string) (c : content) :
  let (saved, sm') := save_artifact sm stage artifact_name c format in
  (supported format = false ->
   (exists msg, saved = inl (Builtin (ValueError msg))) /\ sm' = sm)
  /\ (supported format = true -> fits format c = false ->
      (exists msg, saved = inl (IOError msg))
      /\ (exists msg,
            load_artifact sm' stage artifact_name format
            = if String.eqb format "json" then inl (IOError msg)
              else inr (Str EmptyString))).
Proof.
  unfold supported, fits, save_artifact, load_artifact.
  destruct (List.existsb (String.eqb format) supported_formats) eqn:Hsup; cbn [negb].
  - destruct (String.eqb format "json") eqn:Ejson.
    + destruct c as [s|d|l|]; (split; [discriminate|]); intros _ Hfits;
        try discriminate Hfits; cbn [json_files text_files];
        rewrite lookup_insert_eq; eauto.
    + destruct c as [s|d|l|]; (split; [discriminate|]); intros _ Hfits;
        try discriminate Hfits; cbn [json_files text_files];
        rewrite lookup_insert_eq; split; eauto; exists EmptyString; reflexivity.
  - split; [intros _; eauto|discriminate].
Qed.

End ArtifactFiles.

(** ** Validated requests to the version manager *)

Section ValidatedRequests.
Import State Version.

(** X30: [validate_input] refuses a request without [document_id] (such as the
    requests of the polishing orchestra, which carry [draft] and
    [version_number]).  For a request it accepts, [execute] finds every key
    it subscripts: the action is [store] or [restore], a [store] returns,
    and the only exception of a [restore] is the [FileNotFoundError] of
    [load_version]; a [restore] leaves the stored versions as they are. *)
Theorem validate_input_guards_execute
    (sm : StateManager) (input_data : input) (now : datetime) :
  (document_id input_data = None -> validate_input input_data = false)
  /\ (validate_input input_data = true ->
      (action input_data = Some "store" \/ action input_data = Some "restore")
      /\ match execute sm input_data now with
         | inr (out, sm') => action input_data = Some "restore" -> sm' = sm
         | inl e =>
             action input_data = Some "restore"
             /\ exists msg, e = FileNotFoundError msg
         end).
Proof.
  unfold validate_input, execute. split.
  - intros ->. cbn [default from_option id]. change (strip EmptyString) with EmptyString.
    destruct (negb _); reflexivity.
  - destruct (action input_data) as [a|]; cbn [default from_option id]; [|discriminate].
    destruct (String.eqb a "store") eqn:Estore; cbn [orb negb].
    + apply String.eqb_eq in Estore.
      destruct (document_id input_data) as [doc|]; cbn [default from_option id];
        [|intros H; cbv in H; discriminate H].
      destruct (String.eqb (strip doc) EmptyString); [discriminate|].
      destruct (content input_data) as [c|]; cbn [default from_option id]; [|discriminate].
      intros _. split; [left; congruence|].
      cbv beta iota zeta. intros H. subst a. discriminate H.
    + destruct (String.eqb a "restore") eqn:Erestore; cbn [negb]; [|discriminate].
      apply String.eqb_eq in Erestore.
      destruct (document_id input_data) as [doc|]; cbn [default from_option id];
        [|intros H; cbv in H; discriminate H].
      destruct (String.eqb (strip doc) EmptyString); [discriminate|].
      destruct (version_num input_data) as [n|]; [|discriminate].
      intros _. split; [right; congruence|].
      unfold load_version.
      destruct (versions sm !! doc ≫= (λ dir, dir !! n)) as [data|].
      * intros _. reflexivity.
      * split; [congruence|eauto].
Qed.

Lemma validate_input_guards_execute_witness :
  match execute empty_run
          (store_input "resume_v1" "# John Doe Resume, senior engineer" ∅) midnight with
  | inr (out, sm') =>
      action (store_input "resume_v1" "# John Doe Resume, senior engineer" ∅)
      = Some "restore" -> sm' = empty_run
  | inl e =>
      action (store_input "resume_v1" "# John Doe Resume, senior engineer" ∅)
      = Some "restore"
      /\ exists msg, e = FileNotFoundError msg
  end.
Proof.
  apply (validate_input_guards_execute empty_run
           (store_input "resume_v1" "# John Doe Resume, senior engineer" ∅) midnight).
  vm_compute. reflexivity.
Defined.

End ValidatedRequests.
